(** * Qcodes_contrib_drivers: the documentation build and the example notebooks

    The sources in scope are the Sphinx [Makefile] of the [docs] directory and
    three example notebooks (Thorlabs MFF10x, PRM1Z8 and KLS1550).  The
    Makefile is embedded as an abstract syntax tree, rule by rule, and given
    the meaning GNU make gives it; the notebooks are embedded cell by cell and
    read by a small parser of the Python statements they contain. *)

From Stdlib Require Import Ascii String.
From stdpp Require Import base option list gmap strings.

(** ** Characters that cannot be written inside a string literal *)

Definition dq : string := String (ascii_of_nat 34) EmptyString.
Definition nl : string := String (ascii_of_nat 10) EmptyString.

(** ** Makefile syntax *)

Module Makefile.

(** A piece of recipe text: literal text, a variable reference [$(NAME)] or
    the automatic variable [$@]. *)
Inductive frag :=
| Text (s : string)
| Ref (name : string)
| Target.

(** One recipe line; [quiet] is the [@] prefix, which only stops make from
    echoing the line. *)
Record line := Line { quiet : bool; body : list frag }.

Inductive stmt :=
| AssignIfUnset (name value : string)                          (* NAME ?= value *)
| Assign (name value : string)                                 (* NAME = value *)
| Rule (target : string) (prereqs : list string) (recipe : list line).

Definition makefile := list stmt.

(** The arguments every sphinx-build line of the file ends with:
    ["$(SOURCEDIR)" "$(BUILDDIR)" $(SPHINXOPTS) $(O)]. *)
Definition dirs_and_opts : list frag :=
  [Text dq; Ref "SOURCEDIR"; Text dq; Text " ";
   Text dq; Ref "BUILDDIR"; Text dq; Text " ";
   Ref "SPHINXOPTS"; Text " "; Ref "O"].

(** docs/Makefile, statement by statement. *)
Definition docs_makefile : makefile :=
  [ AssignIfUnset "SPHINXOPTS" EmptyString;
    AssignIfUnset "SPHINXBUILD" "sphinx-build";
    Assign "SOURCEDIR" ".";
    Assign "BUILDDIR" "_build";
    Rule "help" []
      [ Line true ([Ref "SPHINXBUILD"; Text " -M help "] ++ dirs_and_opts) ];
    Rule ".PHONY" ["help"; "Makefile"; "clean"; "genapi"; "htmlfast"] [];
    Rule "clean" []
      [ Line false [Text "rm -rf "; Ref "BUILDDIR"; Text "/*"];
        Line false [Text "rm -rf _auto"];
        Line false [Text "rm -rf api/generated"];
        Line true ([Ref "SPHINXBUILD"; Text " -M clean "] ++ dirs_and_opts) ];
    Rule "genapi" []
      [ Line false [Text "sphinx-apidoc -o _auto -d 10 ../src/qcodes_contrib_drivers \";
                    Text nl;
                    Text "    ../src/qcodes_contrib_drivers/drivers/Spectrum/pyspcm.py"];
        Line false [Text "mkdir -p api/generated/"];
        Line false [Text "cp _auto/qcodes_contrib_drivers.drivers.* api/generated/"] ];
    Rule "htmlfast" ["genapi"]
      [ Line true ([Ref "SPHINXBUILD"; Text " -M html "] ++ dirs_and_opts
                   ++ [Text " -D nbsphinx_execute=never"]) ];
    Rule "%" ["Makefile"; "genapi"]
      [ Line true ([Ref "SPHINXBUILD"; Text " -M "; Target; Text " "] ++ dirs_and_opts) ] ].

End Makefile.

(** ** What GNU make does with a makefile *)

Module Make.
Import Makefile.

(** *** Variables

    A variable given on the command line wins over every assignment of the
    file; [=] wins over the environment; [?=] assigns only a variable that
    has no definition yet.  Values are taken as the text make substitutes,
    that is after make's own expansion of them. *)

Definition define (cl : gmap string string) (tbl : gmap string string) (s : stmt)
  : gmap string string :=
  match s with
  | Assign n v => match cl !! n with Some _ => tbl | None => <[n := v]> tbl end
  | AssignIfUnset n v => match tbl !! n with Some _ => tbl | None => <[n := v]> tbl end
  | Rule _ _ _ => tbl
  end.

Definition read_vars (mk : makefile) (cl env : gmap string string) : gmap string string :=
  foldl (define cl) (cl ∪ env) mk.

(** A reference to a variable that has no definition expands to nothing. *)
Definition value (tbl : gmap string string) (n : string) : string :=
  default EmptyString (tbl !! n).

Definition expand_frag (tbl : gmap string string) (t : string) (f : frag) : string :=
  match f with
  | Text s => s
  | Ref n => value tbl n
  | Target => t
  end.

Definition expand (tbl : gmap string string) (t : string) (fs : list frag) : string :=
  foldr (fun f acc => expand_frag tbl t f +:+ acc) EmptyString fs.

(** *** Rules *)

Definition is_pattern (target : string) : bool :=
  match String.index 0 "%" target with Some _ => true | None => false end.

Definition is_special (target : string) : bool := String.prefix "." target.

Fixpoint explicit_rule (mk : makefile) (t : string) : option (list string * list line) :=
  match mk with
  | [] => None
  | Rule target ps r :: mk' =>
      if negb (is_pattern target) && String.eqb target t then Some (ps, r)
      else explicit_rule mk' t
  | _ :: mk' => explicit_rule mk' t
  end.

(** The match-anything rule [%: ...], if the file has one. *)
Fixpoint match_anything (mk : makefile) : option (list string * list line) :=
  match mk with
  | [] => None
  | Rule target ps r :: mk' =>
      if String.eqb target "%" then Some (ps, r) else match_anything mk'
  | _ :: mk' => match_anything mk'
  end.

(** The prerequisites of [.PHONY]. *)
Fixpoint phony (mk : makefile) (t : string) : bool :=
  match mk with
  | [] => false
  | Rule target ps _ :: mk' =>
      (String.eqb target ".PHONY" && existsb (String.eqb t) ps) || phony mk' t
  | _ :: mk' => phony mk' t
  end.

(** The default goal is the target of the first rule that is neither special
    nor a pattern, unless the command line sets [.DEFAULT_GOAL]. *)
Fixpoint first_target (mk : makefile) : option string :=
  match mk with
  | [] => None
  | Rule target _ _ :: mk' =>
      if is_special target || is_pattern target then first_target mk' else Some target
  | _ :: mk' => first_target mk'
  end.

Definition default_goal (mk : makefile) (cl : gmap string string) : option string :=
  match cl !! ".DEFAULT_GOAL" with
  | Some g => Some g
  | None => first_target mk
  end.

Inductive resolution :=
| Recipe (prereqs : list string) (recipe : list line)
| Nothing      (* a phony target without a rule: nothing to be done *)
| Foreign      (* left to make's built-in database *)
| Missing.     (* no rule at all *)

(** How an invocation can end badly.  [Failed] is make's
    [*** [target] Error code]: the command [cmd] of the recipe of [target]
    exited with status [code] (make itself then exits with status 2). *)
Inductive error :=
| Failed (target cmd : string) (code : nat)
| NoRule (target : string)                     (* *** No rule to make target *)
| Unmodelled (target : string)                 (* a goal left to make's own rules *)
| OutOfFuel.                                   (* a chain of prerequisites longer than the file *)

Inductive res := Ok (remade : bool) | Err (e : error).

Section Run.
(** The machine make runs on: running a shell command changes the world
    and gives an exit status; [fresh w t ps] says that file [t] exists in
    [w] and is not older than any of [ps]; [builtin] holds of the names
    that a built-in implicit rule of make claims (such as [x.o] and
    [x.c]), for which make does not consider a match-anything rule. *)
Context {W : Type}.
Variable exec : W → string → W * nat.
Variable fresh : W → string → list string → bool.
Variable builtin : string → bool.

Variable mk : makefile.
Variable tbl : gmap string string.

(** The rule make uses for [t]: an explicit rule if the file has one; none
    for a phony target without a rule, since implicit rule search is skipped
    for phony targets; else the match-anything rule, unless a built-in
    implicit rule claims the name.  Special targets (a leading dot) are
    make's own and not goals of this model. *)
Definition resolve (t : string) : resolution :=
  if is_special t then Foreign
  else match explicit_rule mk t with
       | Some (ps, r) => Recipe ps r
       | None =>
           if phony mk t then Nothing
           else if builtin t then Foreign
           else match match_anything mk with
                | Some (ps, r) => Recipe ps r
                | None => Missing
                end
       end.

Record state := State {
  world : W;
  trace : list string;            (* the commands run so far, oldest first *)
  seen : gmap string bool         (* targets already considered, and whether remade *)
}.

Definition mark (t : string) (b : bool) (st : state) : state :=
  State (world st) (trace st) (<[t := b]> (seen st)).

(** The lines of a recipe run in order, each in its own shell; the first
    line that exits with a non-zero status stops make (no line of the file
    carries the [-] prefix that would ignore it). *)
Fixpoint run_recipe (t : string) (ls : list line) (st : state) : state * option error :=
  match ls with
  | [] => (st, None)
  | l :: ls' =>
      let c := expand tbl t (body l) in
      let '(w', rc) := exec (world st) c in
      let st' := State w' (trace st ++ [c]) (seen st) in
      match rc with
      | 0 => run_recipe t ls' st'
      | S _ => (st', Some (Failed t c rc))
      end
  end.

(** Commands, each labelled with the target it belongs to, run in order up
    to the first failure: the final world, the commands run and the error. *)
Fixpoint run_cmds (cs : list (string * string)) (w : W) : W * list string * option error :=
  match cs with
  | [] => (w, [], None)
  | (t, c) :: cs' =>
      let '(w', rc) := exec w c in
      match rc with
      | 0 => let '(w'', tr, e) := run_cmds cs' w' in (w'', c :: tr, e)
      | S _ => (w', [c], Some (Failed t c rc))
      end
  end.

Definition update_all (upd : string → state → state * res)
  : list string → bool → state → state * res :=
  fix go ps acc st :=
    match ps with
    | [] => (st, Ok acc)
    | p :: ps' =>
        match upd p st with
        | (st', Ok b) => go ps' (acc || b) st'
        | (st', Err e) => (st', Err e)
        end
    end.

(** Bring target [t] up to date: first its prerequisites, left to right,
    then its recipe when the target is phony, when a prerequisite was
    remade or when the file is missing or stale.  A target is considered
    once in a run. *)
Fixpoint update (fuel : nat) (t : string) (st : state) : state * res :=
  match fuel with
  | 0 => (st, Err OutOfFuel)
  | S fuel' =>
      match seen st !! t with
      | Some b => (st, Ok b)
      | None =>
          match resolve t with
          | Foreign => (st, Err (Unmodelled t))
          | Missing =>
              if fresh (world st) t [] then (mark t false st, Ok false)
              else (st, Err (NoRule t))
          | Nothing => (mark t true st, Ok true)
          | Recipe ps r =>
              match update_all (update fuel') ps false st with
              | (st1, Err e) => (st1, Err e)
              | (st1, Ok newer) =>
                  if phony mk t || newer || negb (fresh (world st1) t ps) then
                    match run_recipe t r st1 with
                    | (st2, Some e) => (st2, Err e)
                    | (st2, None) => (mark t true st2, Ok true)
                    end
                  else (mark t false st1, Ok false)
              end
          end
      end
  end.
End Run.

Arguments State {W}.
Arguments world {W}.
Arguments trace {W}.
Arguments seen {W}.

(** One invocation [make VAR=value... goal...]: the goals are updated in
    order and make stops at the first error. *)
Definition make {W : Type} (exec : W → string → W * nat)
    (fresh : W → string → list string → bool) (builtin : string → bool)
    (mk : makefile) (cl env : gmap string string) (goals : list string) (w : W)
  : state (W := W) * res :=
  let tbl := read_vars mk cl env in
  let gs := match goals with
            | [] => option_list (default_goal mk cl)
            | _ => goals
            end in
  update_all (update exec fresh builtin mk tbl (S (length mk))) gs false (State w [] ∅).

(** What an invocation leaves behind for its caller: the world, the commands
    run and the result. *)
Definition observed {W : Type} (x : state (W := W) * res) : W * list string * res :=
  (world x.1, trace x.1, x.2).

(** A goal the model covers: a file name that is not one of make's special
    targets and that no built-in implicit rule claims. *)
Definition in_scope (builtin : string → bool) (t : string) : Prop :=
  t ≠ EmptyString ∧ is_special t = false ∧ builtin t = false.

Definition cmds (tbl : gmap string string) (t : string) (r : list line) : list (string * string) :=
  map (fun l => (t, expand tbl t (body l))) r.

Definition recipe_of (mk : makefile) (t : string) : list line :=
  match explicit_rule mk t with Some (_, r) => r | None => [] end.

Definition catch_all (mk : makefile) : list line :=
  match match_anything mk with Some (_, r) => r | None => [] end.

(** The commands [make t] has to run with docs/Makefile, in order. *)
Definition docs_plan (tbl : gmap string string) (t : string) : list (string * string) :=
  let genapi := cmds tbl "genapi" (recipe_of docs_makefile "genapi") in
  if String.eqb t "help" then cmds tbl t (recipe_of docs_makefile t)
  else if String.eqb t "clean" then cmds tbl t (recipe_of docs_makefile t)
  else if String.eqb t "genapi" then genapi
  else if String.eqb t "htmlfast" then genapi ++ cmds tbl t (recipe_of docs_makefile t)
  else if String.eqb t "Makefile" then []
  else genapi ++ cmds tbl t (catch_all docs_makefile).

(** *** The command lines, as one reads them in a terminal *)

(** [sphinx-build -M builder "SOURCEDIR" "BUILDDIR" SPHINXOPTS O], with the
    values the variables have. *)
Definition sphinx_build (tbl : gmap string string) (builder : string) : string :=
  value tbl "SPHINXBUILD" +:+ " -M " +:+ builder +:+ " "
  +:+ dq +:+ value tbl "SOURCEDIR" +:+ dq +:+ " "
  +:+ dq +:+ value tbl "BUILDDIR" +:+ dq +:+ " "
  +:+ value tbl "SPHINXOPTS" +:+ " " +:+ value tbl "O".

Definition apidoc : list string :=
  [ "sphinx-apidoc -o _auto -d 10 ../src/qcodes_contrib_drivers \" +:+ nl
    +:+ "    ../src/qcodes_contrib_drivers/drivers/Spectrum/pyspcm.py";
    "mkdir -p api/generated/";
    "cp _auto/qcodes_contrib_drivers.drivers.* api/generated/" ].

Definition removals (tbl : gmap string string) : list string :=
  [ "rm -rf " +:+ value tbl "BUILDDIR" +:+ "/*";
    "rm -rf _auto";
    "rm -rf api/generated" ].

Definition is_Ok (r : res) : Prop := ∃ b, r = Ok b.

(** The world after the commands [cs] have run in it, one after the other. *)
Definition replay {W : Type} (exec : W → string → W * nat) (cs : list string) (w : W) : W :=
  foldl (fun w c => (exec w c).1) w cs.

(** The exit status of [c] when it runs after [pre]. *)
Definition status {W : Type} (exec : W → string → W * nat) (pre : list string) (c : string) (w : W)
  : nat :=
  (exec (replay exec pre w) c).2.

(** A run of commands in a world: each command starts in the world the one
    before it left; a command that fails is the last one.  The flag says
    whether the run ended on a failure. *)
Inductive run_of {W : Type} (exec : W → string → W * nat) : W → list string → W → bool → Prop :=
| run_done w : run_of exec w [] w false
| run_next w c tr w' f :
    (exec w c).2 = 0 → run_of exec (exec w c).1 tr w' f → run_of exec w (c :: tr) w' f
| run_stop w c : (exec w c).2 ≠ 0 → run_of exec w [c] (exec w c).1 true.

(** All recipe lines of a makefile. *)
Definition recipes (mk : makefile) : list line :=
  concat (map (fun s => match s with Rule _ _ r => r | _ => [] end) mk).

Definition failed (r : res) : bool :=
  match r with
  | Err (Failed _ _ _) => true
  | _ => false
  end.

(** A command of the file: a recipe line with its variables expanded, for
    some target. *)
Definition produced (mk : makefile) (tbl : gmap string string) (c : string) : Prop :=
  ∃ t l, l ∈ recipes mk ∧ c = expand tbl t (body l).

(** What one step of make (a recipe, a target, a list of targets) may do to
    the state: run commands of the file, in a valid run, and report either
    no failure or the failure of the last command. *)
Definition advance {W : Type} (exec : W → string → W * nat) (mk : makefile)
    (tbl : gmap string string) (st st' : state (W := W)) (r : res) : Prop :=
  ∃ tr, trace st' = trace st ++ tr
        ∧ run_of exec (world st) tr (world st') (failed r)
        ∧ Forall (produced mk tbl) tr
        ∧ ∀ tgt c code, r = Err (Failed tgt c code) →
            ∃ pre, tr = pre ++ [c] ∧ code = status exec pre c (world st).

Definition is_failure (e : error) : Prop := ∃ tgt c code, e = Failed tgt c code.

(** The targets docs/Makefile names. *)
Definition named : list string := ["help"; "clean"; "genapi"; "htmlfast"; "Makefile"].

(** The goals the model of docs/Makefile covers: the targets the file names
    and every other name in scope. *)
Definition covered (builtin : string → bool) (t : string) : Prop :=
  t ∈ named ∨ in_scope builtin t.

(** The line of [htmlfast]. *)
Definition sphinx_build_fast (tbl : gmap string string) : string :=
  sphinx_build tbl "html" +:+ " -D nbsphinx_execute=never".

(** The variables the recipes refer to. *)
Definition recipe_vars : list string :=
  ["SPHINXBUILD"; "SOURCEDIR"; "BUILDDIR"; "SPHINXOPTS"; "O"].

(** A machine for examples: a world without files where every command
    succeeds, and a make whose built-in rules claim object and C files. *)
Definition calm (w : unit) (c : string) : unit * nat := (w, 0).
Definition bare (w : unit) (t : string) (ps : list string) : bool := false.
(** The same machine with a [mkdir] that fails. *)
Definition no_mkdir (w : unit) (c : string) : unit * nat :=
  (w, if String.prefix "mkdir" c then 1 else 0).
Definition c_rules (t : string) : bool :=
  match String.index 0 ".o" t, String.index 0 ".c" t with
  | None, None => false
  | _, _ => true
  end.

End Make.

(** ** Text helpers for reading notebook source *)

Module Txt.

Definition is_space (c : ascii) : bool := Ascii.eqb c " " || Ascii.eqb c (ascii_of_nat 10).
Definition is_dq (c : ascii) : bool := Ascii.eqb c (ascii_of_nat 34).
Definition is_digit (c : ascii) : bool :=
  let n := nat_of_ascii c in (48 <=? n)%nat && (n <=? 57)%nat.
Definition is_alpha (c : ascii) : bool :=
  let n := nat_of_ascii c in
  ((65 <=? n)%nat && (n <=? 90)%nat) || ((97 <=? n)%nat && (n <=? 122)%nat) || Ascii.eqb c "_".

Definition chars (s : string) : list ascii := list_ascii_of_string s.
Definition text (l : list ascii) : string := string_of_list_ascii l.

Fixpoint trim_left (s : string) : string :=
  match s with
  | String c s' => if is_space c then trim_left s' else s
  | EmptyString => EmptyString
  end.

Definition rev_string (s : string) : string := text (rev (chars s)).
Definition trim (s : string) : string := rev_string (trim_left (rev_string (trim_left s))).

Definition ends_with (c : ascii) (s : string) : bool :=
  match rev (chars s) with
  | c' :: _ => Ascii.eqb c c'
  | [] => false
  end.

Definition drop_last (s : string) : string := text (rev (tail (rev (chars s)))).

(** Python comment: from the first [#] outside a string to the end of the line. *)
Fixpoint strip_comment (inq : bool) (s : string) : string :=
  match s with
  | EmptyString => EmptyString
  | String c s' =>
      if is_dq c then String c (strip_comment (negb inq) s')
      else if Ascii.eqb c "#" && negb inq then EmptyString
      else String c (strip_comment inq s')
  end.

(** Open brackets minus closed ones, outside strings. *)
Fixpoint depth_after (depth : nat) (inq : bool) (s : string) : nat :=
  match s with
  | EmptyString => depth
  | String c s' =>
      if is_dq c then depth_after depth (negb inq) s'
      else if inq then depth_after depth inq s'
      else if Ascii.eqb c "(" then depth_after (S depth) inq s'
      else if Ascii.eqb c ")" then depth_after (pred depth) inq s'
      else depth_after depth inq s'
  end.

(** The pieces of [s] between the occurrences of [sep] that stand outside
    brackets and strings. *)
Fixpoint split_top (sep : ascii) (depth : nat) (inq : bool) (s : string) : list string :=
  match s with
  | EmptyString => [EmptyString]
  | String c s' =>
      if Ascii.eqb c sep && Nat.eqb depth 0 && negb inq then
        EmptyString :: split_top sep depth inq s'
      else
        let inq' := if is_dq c then negb inq else inq in
        let depth' := if inq then depth
                      else if Ascii.eqb c "(" then S depth
                      else if Ascii.eqb c ")" then pred depth
                      else depth in
        match split_top sep depth' inq' s' with
        | p :: ps => String c p :: ps
        | [] => [String c EmptyString]
        end
  end.

Definition split (sep : ascii) (s : string) : list string := split_top sep 0 false s.

(** The pieces of [s] between all occurrences of [sep]. *)
Fixpoint cut (sep : ascii) (s : string) : list string :=
  match s with
  | EmptyString => [EmptyString]
  | String c s' =>
      if Ascii.eqb c sep then EmptyString :: cut sep s'
      else match cut sep s' with
           | p :: ps => String c p :: ps
           | [] => [String c EmptyString]
           end
  end.

Definition words (s : string) : list string :=
  filter (fun w => w ≠ EmptyString) (cut " " s).

(** [s] cut at its first [c]. *)
Fixpoint break_at (c : ascii) (s : string) : option (string * string) :=
  match s with
  | EmptyString => None
  | String c' s' =>
      if Ascii.eqb c c' then Some (EmptyString, s')
      else match break_at c s' with
           | Some (a, b) => Some (String c' a, b)
           | None => None
           end
  end.

Definition is_ident (s : string) : bool :=
  match chars s with
  | c :: cs => is_alpha c && forallb (fun x => is_alpha x || is_digit x) cs
  | [] => false
  end.

Definition is_path (s : string) : bool := forallb is_ident (split "." s).

Definition mem (s : string) (l : list string) : bool := existsb (String.eqb s) l.

Fixpoint has_dq (s : string) : bool :=
  match s with
  | EmptyString => false
  | String c s' => is_dq c || has_dq s'
  end.

End Txt.

(** ** The example notebooks *)

Module Notebook.
Import Txt.

Inductive output :=
| Stream (name : string) (text : list string)
| ExecuteResult (text_plain : list string).

Inductive cell :=
| Markdown (source : list string)
| Code (source : list string) (outputs : list output).

(** A notebook: its cells and the [nbsphinx.execute] entry of its metadata.
    Source lines are the entries of the JSON [source] array without their
    line terminators. *)
Record notebook := Nb { cells : list cell; nbsphinx_execute : option string }.

(** The Thorlabs MFF10x example (a mirror flipper). *)
Definition Thorlabs_MFF10x : notebook :=
  Nb [ Markdown ["# Qcodes example with Thorlabs MFF10x"];
       Code ["from qcodes_contrib_drivers.drivers.Thorlabs.APT import Thorlabs_APT";
             "from qcodes_contrib_drivers.drivers.Thorlabs.MFF10x import Thorlabs_MFF10x"] [];
       Markdown ["## Initialize the instrument";
                 "First, we need to initialize the APT server. Then we can initialize the MFF10x mirror flipper."];
       Code ["apt = Thorlabs_APT()"] [];
       Code ["thorlabs_mff10x = Thorlabs_MFF10x(" +:+ dq +:+ "Thorlabs_MFF10x" +:+ dq +:+ ", 0, apt)"]
            [Stream "stdout"
               ["Connected to: Thorlabs MFF002 (serial:37864181, firmware:SW Version 1.0.3) in 0.02s" +:+ nl]];
       Markdown ["## Read the current position";
                 "We read the current position of the mirror flipper."];
       Code ["thorlabs_mff10x.position.get()"] [ExecuteResult ["0"]];
       Markdown ["## Change the position";
                 "We change the position of the flip mirror and repeat the position reading."];
       Code ["thorlabs_mff10x.position.set(1)"] [];
       Code ["thorlabs_mff10x.position.get()"] [ExecuteResult ["1"]];
       Markdown ["## Close instrument"];
       Code ["thorlabs_mff10x.close()";
             "apt.apt_clean_up()"] [] ]
     (Some "never").

(** The Thorlabs PRM1Z8 example (a polarizer wheel). *)
Definition Thorlabs_PRM1Z8 : notebook :=
  Nb [ Markdown ["# Qcodes example with Thorlabs PRM1Z8"];
       Code ["from qcodes_contrib_drivers.drivers.Thorlabs.APT import Thorlabs_APT";
             "from qcodes_contrib_drivers.drivers.Thorlabs.PRM1Z8 import Thorlabs_PRM1Z8"] [];
       Markdown ["## Initialize the instrument";
                 "First, we need to initialize the APT server. Then we can initialize the PRM1Z8 polarizer wheel."];
       Code ["apt = Thorlabs_APT()"] [];
       Code ["thorlabs_prm1z8 = Thorlabs_PRM1Z8(" +:+ dq +:+ "Thorlabs_PRM1Z8" +:+ dq +:+ ", 0, apt)"]
            [Stream "stdout"
               ["Connected to: Thorlabs TDC001 (serial:83857355, firmware:SW Version 2.0.8) in 1.21s" +:+ nl]];
       Markdown ["## Read the current position";
                 "We read the current position of the polarizer wheel."];
       Code ["print(thorlabs_prm1z8.position.label, thorlabs_prm1z8.position.get(), thorlabs_prm1z8.position.unit)"]
            [Stream "stdout" ["position 90.00012969970703 °" +:+ nl]];
       Markdown ["## Change the position";
                 "We change the position of the polarizer wheel and repeat the position reading."];
       Code ["thorlabs_prm1z8.position.set(200.0)"] [];
       Code ["print(thorlabs_prm1z8.position.label, thorlabs_prm1z8.position.get(), thorlabs_prm1z8.position.unit)"]
            [Stream "stdout" ["position 200.00189208984375 °" +:+ nl]];
       Markdown ["## Close instrument"];
       Code ["thorlabs_prm1z8.close()";
             "apt.apt_clean_up()"] [] ]
     (Some "never").

(** docs/examples/Thorlabs_KLS1550.ipynb (a laser source). *)
Definition Thorlabs_KLS1550 : notebook :=
  Nb [ Markdown ["# QCoDeS example with Thorlabs KLS1550 laser source";
                 "(same .dll as for KLS101, KLSnnn)"];
       Markdown ["## Initialisation";
                 "Import all required libraries for driving the devices."];
       Code ["import qcodes as qc";
             "from qcodes_contrib_drivers.drivers.Thorlabs.Kinesis import Thorlabs_Kinesis";
             "from qcodes_contrib_drivers.drivers.Thorlabs.KLS1550 import Thorlabs_KLS1550"] [];
       Markdown ["Create an instance of `Thorlabs_Kinesis` which is a wrapper for the device dll (passed as an argument to the object) that starts up the Kinesis server. The DLL needs be installed from https://www.thorlabs.com/software_pages/viewsoftwarepage.cfm?code=Motion_Control under "
                 +:+ dq +:+ "Kinesis software" +:+ dq +:+ "."];
       Code ["kinesis = Thorlabs_Kinesis(" +:+ dq +:+ "Thorlabs.MotionControl.KCube.LaserSource.dll"
             +:+ dq +:+ ", sim=False)";
             "print(kinesis.device_list())"] [];
       Markdown ["Create an instance of `Thorlabs_KLS1550` which is the device driver object, opening the device and starting polling (requesting device information) at 200 milisecods loops (must know the serial number shown on the device)."];
       Code ["qc.Instrument.close_all()";
             "laser = Thorlabs_KLS1550(";
             "    name=" +:+ dq +:+ "laser" +:+ dq +:+ ",";
             "    serial_number=" +:+ dq +:+ "..." +:+ dq +:+ ",";
             "    polling_speed=200, ";
             "    kinesis=kinesis)"] [];
       Markdown ["## Turning the laser output on/off";
                 "Set the parameter `output_enabled` to True for " +:+ dq +:+ "laser on" +:+ dq
                 +:+ " and False for " +:+ dq +:+ "laser off" +:+ dq
                 +:+ ". Note that the laser will only turn on if the safety switch is also on."];
       Code ["laser.output_enabled.set(True) # laser turns on"] [];
       Code ["laser.output_enabled.set(False) # laser turns off"] [];
       Code ["laser.output_enabled.get() # Check laser output status"] [];
       Markdown ["## Setting the laser output power";
                 "Set the laser output power in Watts and get the current power value from the device (also in Watts)"];
       Code ["laser.power.set(1e-3) # Set power to 1 mW"] [];
       Code ["laser.power.get() # Gets laser power reading"] [];
       Markdown ["## Disconnecting";
                 "Disconnect the device from the driver (but not the server, it still shows under `device_list`), stopping polling and closing the device (both for Kinesis server and qcodes)."];
       Code ["laser.close()"] [] ]
     (Some "never").

Definition examples : list notebook := [Thorlabs_MFF10x; Thorlabs_PRM1Z8; Thorlabs_KLS1550].

End Notebook.

(** ** The Python statements of the code cells *)

Module Py.
Import Txt Notebook.

Inductive pytype := PyBool | PyInt | PyFloat | PyStr.

Definition all_digits (s : string) : bool :=
  negb (String.eqb s EmptyString) && forallb is_digit (chars s).

Definition unsigned (s : string) : string :=
  match s with
  | String c s' => if Ascii.eqb c "-" || Ascii.eqb c "+" then s' else s
  | EmptyString => s
  end.

(** digits [.] digits, with a digit on one side of the point at least *)
Definition is_pointed (s : string) : bool :=
  match break_at "." s with
  | Some (a, b) =>
      forallb is_digit (chars a) && forallb is_digit (chars b)
      && negb (String.eqb (a +:+ b) EmptyString)
  | None => false
  end.

Definition is_float_text (s : string) : bool :=
  let m := unsigned s in
  match break_at "e" (text (map (fun c => if Ascii.eqb c "E" then "e"%char else c) (chars m))) with
  | Some (mant, ex) => (all_digits mant || is_pointed mant) && all_digits (unsigned ex)
  | None => is_pointed m
  end.

(** The type of a literal, read off its text the way Python writes and
    reads it: [True]/[False]; digits; digits with a point or an exponent;
    text between double quotes. *)
Definition literal_type (s : string) : option pytype :=
  if String.eqb s "True" || String.eqb s "False" then Some PyBool
  else if all_digits (match s with String "-" s' => s' | _ => s end) then Some PyInt
  else if is_float_text s then Some PyFloat
  else match chars s with
       | c :: r => if is_dq c && ends_with c s && negb (existsb is_dq (tail (rev r)))
                      && negb (Nat.eqb (length r) 0)
                   then Some PyStr else None
       | [] => None
       end.

Inductive expr :=
| Lit (ty : pytype) (text : string)
| Name (path : list string)                        (* a.b.c *)
| Call (callee : list string) (args : list string)  (* a.b.c(arg, ...), arguments as written *)
| Keyword (key value : string)                      (* key=value inside a call *)
| Opaque (text : string).

Definition args_of (inner : string) : list string :=
  if String.eqb (trim inner) EmptyString then []
  else map trim (split "," inner).

Definition parse_expr (src : string) : expr :=
  let s := trim src in
  match literal_type s with
  | Some ty => Lit ty s
  | None =>
      if ends_with ")" s then
        match break_at "(" s with
        | Some (callee, rest) =>
            if is_path callee then Call (split "." callee) (args_of (drop_last rest))
            else Opaque s
        | None => Opaque s
        end
      else
        match split "=" s with
        | [k; v] => if is_ident (trim k) then Keyword (trim k) (trim v) else Opaque s
        | _ => if is_path s then Name (split "." s) else Opaque s
        end
  end.

Inductive stmt :=
| Import (names : list string)         (* the names the statement binds *)
| Assign (var : string) (e : expr)
| Expr (e : expr)
| Compound (keyword : string).         (* try, with, if, for, while, def, ... *)

Definition compound_keywords : list string :=
  ["try"; "except"; "finally"; "with"; "if"; "elif"; "else"; "for"; "while";
   "def"; "class"; "raise"; "assert"; "async"; "await"; "return"; "yield";
   "del"; "global"; "nonlocal"; "lambda"; "pass"; "break"; "continue"].

Fixpoint first_word (s : string) : string :=
  match s with
  | String c s' => if is_alpha c || is_digit c then String c (first_word s') else EmptyString
  | EmptyString => EmptyString
  end.

Definition parse_import (s : string) : list string :=
  match words s with
  | ["import"; m] => [m]
  | ["import"; _; "as"; a] => [a]
  | "from" :: _ :: "import" :: names => map (fun n => trim (text (filter (fun c => c ≠ ","%char) (chars n)))) names
  | _ => []
  end.

Definition parse_stmt (src : string) : stmt :=
  let s := trim src in
  let w := first_word s in
  if String.eqb w "import" || String.eqb w "from" then Import (parse_import s)
  else if mem w compound_keywords then Compound w
  else match split "=" s with
       | [v; rhs] => if is_ident (trim v) then Assign (trim v) (parse_expr rhs)
                     else Expr (parse_expr s)
       | _ => Expr (parse_expr s)
       end.

(** Physical lines to logical lines: comments go, blank lines go, and a
    line with an open bracket continues on the next one. *)
Fixpoint logical_lines (pending : string) (ls : list string) : list string :=
  match ls with
  | [] => if String.eqb (trim pending) EmptyString then [] else [pending]
  | l :: ls' =>
      let cur := pending +:+ strip_comment false l in
      if Nat.eqb (depth_after 0 false cur) 0 then
        if String.eqb (trim cur) EmptyString then logical_lines EmptyString ls'
        else cur :: logical_lines EmptyString ls'
      else logical_lines cur ls'
  end.

Definition cell_stmts (c : cell) : list stmt :=
  match c with
  | Markdown _ => []
  | Code src _ => map parse_stmt (logical_lines EmptyString src)
  end.

Definition stmts (nb : notebook) : list stmt := concat (map cell_stmts (cells nb)).

End Py.

(** ** What a notebook does, call by call *)

Module Session.
Import Txt Notebook Py.

(** A call or an attribute read, in the order Python evaluates them
    (arguments before the call they belong to). *)
Inductive action :=
| ACall (callee : list string) (args : list string)
| ARead (path : list string).

Definition size (e : expr) : nat :=
  match e with
  | Call _ args => S (foldr (fun a n => String.length a + n) 0 args)
  | Keyword _ v => S (String.length v)
  | _ => 1
  end.

Fixpoint actions_upto (fuel : nat) (e : expr) : list action :=
  match fuel with
  | 0 => []
  | S f =>
      match e with
      | Call callee args =>
          concat (map (fun a => actions_upto f (parse_expr a)) args) ++ [ACall callee args]
      | Keyword _ v => actions_upto f (parse_expr v)
      | Name path => [ARead path]
      | Lit _ _ | Opaque _ => []
      end
  end.

Definition actions (e : expr) : list action := actions_upto (size e) e.

Definition stmt_actions (s : stmt) : list action :=
  match s with
  | Assign _ e | Expr e => actions e
  | Import _ | Compound _ => []
  end.

Inductive event :=
| EOpen (var cls : string)            (* var = Cls(...): the driver connects *)
| EGet (obj param : string)           (* obj.param.get() *)
| ESet (obj param arg : string)       (* obj.param.set(arg) *)
| ERead (obj param attr : string)     (* obj.param.label, obj.param.unit *)
| EClose (obj : string)               (* obj.close() *)
| ECleanUp (obj : string)             (* apt.apt_clean_up() *)
| ECloseAll                           (* qc.Instrument.close_all() *)
| EInvoke (callee : list string).     (* any other call *)

Definition call_event (callee args : list string) : event :=
  match callee, args with
  | [o; p; "get"], [] => EGet o p
  | [o; p; "set"], [a] => ESet o p a
  | [o; "close"], [] => EClose o
  | [o; "apt_clean_up"], [] => ECleanUp o
  | [_; "Instrument"; "close_all"], [] => ECloseAll
  | _, _ => EInvoke callee
  end.

Definition action_events (a : action) : list event :=
  match a with
  | ACall callee args => [call_event callee args]
  | ARead [o; p; a] => [ERead o p a]
  | ARead _ => []
  end.

(** A call of a bare name whose result is bound to a variable constructs
    an object: in the notebooks, a driver connecting to its device. *)
Definition stmt_events (s : stmt) : list event :=
  match s with
  | Assign v (Call [c] args) =>
      concat (map (fun a => concat (map action_events (actions (parse_expr a)))) args)
      ++ [EOpen v c]
  | _ => concat (map action_events (stmt_actions s))
  end.

Definition events (nb : notebook) : list event := concat (map stmt_events (stmts nb)).

(** *** The connection lifecycle, as a monitor over the events *)

Definition closes (o : string) (e : event) : bool :=
  match e with
  | EClose o' | ECleanUp o' => String.eqb o o'
  | ECloseAll => true
  | _ => false
  end.

Definition accessed (e : event) : option string :=
  match e with
  | EGet o _ | ESet o _ _ => Some o
  | _ => None
  end.

Definition is_close (e : event) : bool :=
  match e with
  | EClose _ | ECleanUp _ => true
  | _ => false
  end.

(** The objects whose connection is open; [None] when a parameter is read
    or written on an object that is not open. *)
Definition step (open : list string) (e : event) : option (list string) :=
  match e with
  | EOpen v _ => Some (v :: open)
  | EGet o _ | ESet o _ _ => if mem o open then Some open else None
  | EClose o | ECleanUp o => Some (filter (fun x => x ≠ o) open)
  | ECloseAll => Some []
  | ERead _ _ _ | EInvoke _ => Some open
  end.

Fixpoint monitor (open : list string) (es : list event) : option (list string) :=
  match es with
  | [] => Some open
  | e :: es' =>
      match step open e with
      | Some open' => monitor open' es'
      | None => None
      end
  end.

Definition lifecycle_ok (es : list event) : bool :=
  match monitor [] es with
  | Some open =>
      forallb (fun o => negb (mem o open)) (omap accessed es)
      && match last es with Some e => is_close e | None => false end
  | None => false
  end.

(** No object's parameter is read or written once a [close] or an
    [apt_clean_up] has run. *)
Fixpoint silent_after_close (closed : bool) (es : list event) : bool :=
  match es with
  | [] => true
  | e :: es' =>
      match accessed e with
      | Some _ => negb closed && silent_after_close closed es'
      | None => silent_after_close (closed || is_close e) es'
      end
  end.

(** Event [i] finds the connection of [o] open: an earlier event opened it
    and nothing closed it since. *)
Definition opened_before (es : list event) (i : nat) (o : string) : Prop :=
  ∃ j cls, j < i ∧ es !! j = Some (EOpen o cls)
           ∧ ∀ k e, j < k < i → es !! k = Some e → closes o e = false.

(** *** Values the notebooks show *)

Definition shown_path (arg : string) : list string :=
  match parse_expr arg with
  | Call callee [] => callee
  | Name path => path
  | _ => []
  end.

(** The expressions whose value a cell's stored output shows: the value of a
    cell's last expression ([execute_result]), or the space-separated
    fields of a [print]. *)
Definition cell_shown (c : cell) : list (list string * string) :=
  match c with
  | Markdown _ => []
  | Code src outs =>
      match last (map parse_stmt (logical_lines EmptyString src)) with
      | Some (Expr (Call ["print"] args)) =>
          concat (map (fun o => match o with
                                | Stream "stdout" [t] =>
                                    if Nat.eqb (length (words (trim t))) (length args)
                                    then zip (map shown_path args) (words (trim t))
                                    else []
                                | _ => []
                                end) outs)
      | Some (Expr (Call callee [])) =>
          concat (map (fun o => match o with
                                | ExecuteResult [r] => [(callee, r)]
                                | _ => []
                                end) outs)
      | _ => []
      end
  end.

Definition shown (nb : notebook) : list (list string * string) :=
  concat (map cell_shown (cells nb)).

(** The values read from parameter [p]: object and text shown. *)
Definition reads (p : string) (nb : notebook) : list (string * string) :=
  omap (fun x => match x with
                 | ([o; p'; "get"], r) => if String.eqb p p' then Some (o, r) else None
                 | _ => None
                 end) (shown nb).

(** The values written to parameter [p]: object and argument text. *)
Definition writes (p : string) (nb : notebook) : list (string * string) :=
  omap (fun e => match e with
                 | ESet o p' a => if String.eqb p p' then Some (o, a) else None
                 | _ => None
                 end) (events nb).

(** *** Where the called objects come from *)

Definition head_of (a : action) : string :=
  match a with
  | ACall (h :: _) _ | ARead (h :: _) => h
  | _ => EmptyString
  end.

Definition is_constant (a : action) : bool :=
  match a with
  | ARead [c] => mem c ["True"; "False"; "None"]
  | _ => false
  end.

(** Every call and every attribute read goes to [print], to a name an
    import binds, or to a variable assigned from such a call; there is no
    compound statement. *)
Fixpoint delegates (bound : list string) (ss : list stmt) : bool :=
  match ss with
  | [] => true
  | Import ns :: r => delegates (ns ++ bound) r
  | Assign v e :: r =>
      forallb (fun a => is_constant a || mem (head_of a) ("print" :: bound)) (actions e)
      && delegates (v :: bound) r
  | Expr e :: r =>
      forallb (fun a => is_constant a || mem (head_of a) ("print" :: bound)) (actions e)
      && delegates bound r
  | Compound _ :: _ => false
  end.

(** *** Running the calls

    A call into a driver may raise; nothing in a notebook catches, so the
    first exception ends the run. *)
Section Kernel.
Context {H E : Type}.
Variable perform : H → event → H * option E.

Fixpoint run_events (es : list event) (h : H) : H * list event * option E :=
  match es with
  | [] => (h, [], None)
  | e :: es' =>
      match perform h e with
      | (h', Some x) => (h', [e], Some x)
      | (h', None) => let '(h'', done, r) := run_events es' h' in (h'', e :: done, r)
      end
  end.
End Kernel.

End Session.

(** ** nbsphinx *)

Module Nbsphinx.
Import Notebook.

Definition has_outputs (nb : notebook) : bool :=
  existsb (fun c => match c with Code _ (_ :: _) => true | _ => false end) (cells nb).

(** Whether nbsphinx runs the cells of a notebook when Sphinx builds the
    documentation: the notebook's own [nbsphinx.execute] metadata decides
    when present, the configuration value [nbsphinx_execute] otherwise;
    [never] runs nothing, [always] everything, [auto] a notebook that stores
    no output. *)
Definition executes (config : string) (nb : notebook) : bool :=
  let mode := default config (nbsphinx_execute nb) in
  if String.eqb mode "never" then false
  else if String.eqb mode "always" then true
  else negb (has_outputs nb).

End Nbsphinx.

(** ** The drivers behind the notebooks *)

Module Driver.

Section Vendor.
Context {HW V : Type}.
(** The two calls of the vendor DLL a parameter is bound to. *)
Variable dll_set : string → V → HW → HW.
Variable dll_get : string → HW → V.

(** Modelled from the spec: the driver classes the notebooks call
    (Thorlabs_MFF10x, Thorlabs_PRM1Z8, Thorlabs_KLS1550), whose source is not
    among the files in scope.  The spec has a parameter as a pass-through
    value to vendor hardware state: [set] forwards the value to a DLL call
    and returns once the vendor call returns, [get] asks the DLL.  A driver
    holds the open vendor handle and nothing else; a call on a closed
    connection raises. *)
Record driver := Drv { handle : option HW }.

Inductive op := PSet (p : string) (v : V) | PGet (p : string).

(** Modelled from the spec: a parameter's [set] and [get], each one call
    of the vendor DLL on the open handle. *)
Definition call (o : op) (d : driver) : option (option V * driver) :=
  match handle d with
  | None => None
  | Some h =>
      match o with
      | PSet p v => Some (None, Drv (Some (dll_set p v h)))
      | PGet p => Some (Some (dll_get p h), d)
      end
  end.

Definition close (d : driver) : driver := Drv None.

(** The values returned by the calls of [os], in order. *)
Fixpoint session (os : list op) (d : driver) : option (list (option V) * driver) :=
  match os with
  | [] => Some ([], d)
  | o :: os' =>
      match call o d with
      | None => None
      | Some (r, d') =>
          match session os' d' with
          | None => None
          | Some (rs, d'') => Some (r :: rs, d'')
          end
      end
  end.
End Vendor.

End Driver.

(** ** Several goals in one invocation of docs/Makefile *)

Module Schedule.
Import Makefile Make.

(** A target of the file that has a recipe of its own and no prerequisite
    ([help], [clean], [genapi]): its commands, unless the invocation has
    considered it already, and the targets considered afterwards. *)
Definition leaf (tbl : gmap string string) (seen : gmap string bool) (t : string)
  : list (string * string) * gmap string bool :=
  match seen !! t with
  | Some _ => ([], seen)
  | None => (cmds tbl t (recipe_of docs_makefile t), <[t := true]> seen)
  end.

(** The commands one more goal adds to an invocation that has considered
    the targets of [seen]. *)
Definition goal_plan (tbl : gmap string string) (seen : gmap string bool) (t : string)
  : list (string * string) * gmap string bool :=
  match seen !! t with
  | Some _ => ([], seen)
  | None =>
      if String.eqb t "help" || String.eqb t "clean" || String.eqb t "genapi" then
        leaf tbl seen t
      else if String.eqb t "Makefile" then ([], <[t := true]> seen)
      else if String.eqb t "htmlfast" then
        let '(g, s1) := leaf tbl seen "genapi" in
        (g ++ cmds tbl t (recipe_of docs_makefile t), <[t := true]> s1)
      else
        let s0 := match seen !! "Makefile" with
                  | Some _ => seen
                  | None => <["Makefile" := true]> seen
                  end in
        let '(g, s1) := leaf tbl s0 "genapi" in
        (g ++ cmds tbl t (catch_all docs_makefile), <[t := true]> s1)
  end.

Fixpoint goals_plan (tbl : gmap string string) (seen : gmap string bool) (gs : list string)
  : list (string * string) :=
  match gs with
  | [] => []
  | g :: gs' => let '(c, s') := goal_plan tbl seen g in c ++ goals_plan tbl s' gs'
  end.

(** The targets considered once the goals [gs] have been made. *)
Fixpoint seen_after (tbl : gmap string string) (seen : gmap string bool) (gs : list string)
  : gmap string bool :=
  match gs with
  | [] => seen
  | g :: gs' => seen_after tbl (goal_plan tbl seen g).2 gs'
  end.

(** Every target considered so far was remade. *)
Definition all_remade (seen : gmap string bool) : Prop :=
  ∀ t b, seen !! t = Some b → b = true.

(** Outcome [x] of a make step from state [st] is that of running the
    commands [cs]: on success the state holds the new world, the longer
    trace and the targets [seen']; on failure make stops with the error. *)
Definition follows {W : Type} (exec : W → string → W * nat)
    (x : state (W := W) * res) (st : state (W := W))
    (cs : list (string * string)) (seen' : gmap string bool) : Prop :=
  match run_cmds exec cs (world st) with
  | (w', tr, None) => x = (State w' (trace st ++ tr) seen', Ok true)
  | (w', tr, Some e) => ∃ s, x = (State w' (trace st ++ tr) s, Err e)
  end.

(** The goals make works on: those given, or the default goal. *)
Definition effective (cl : gmap string string) (goals : list string) : list string :=
  match goals with
  | [] => option_list (default_goal docs_makefile cl)
  | _ => goals
  end.

End Schedule.

(** * Properties *)

(** ** Tactics for statements over the list of examples *)

Ltac forall_list := repeat first [apply Forall_nil_2 | apply Forall_cons_2].
Ltac forall_examples :=
  unfold Notebook.examples;
  apply Forall_cons_2; [|apply Forall_cons_2; [|apply Forall_cons_2; [|apply Forall_nil_2]]];
  cbv beta.
Ltac forall_computed :=
  match goal with
  | |- Forall _ ?l => let l' := eval vm_compute in l in change l with l'
  end; forall_list.

Ltac read_var :=
  unfold Make.read_vars, Make.value; simpl; unfold Make.define;
  repeat (simplify_map_eq; repeat case_match; simplify_map_eq; try done).

(** ** Strings *)

#[local] Arguments String.append !_ _ / : simpl nomatch.
#[local] Arguments String.eqb : simpl never.

Lemma append_empty_r (s : string) : s +:+ EmptyString = s.
Proof. induction s as [|c s IH]; [reflexivity | simpl; f_equal; exact IH]. Qed.

Lemma append_assoc (a b c : string) : (a +:+ b) +:+ c = a +:+ (b +:+ c).
Proof. induction a as [|x a IH]; [reflexivity | simpl; f_equal; exact IH]. Qed.

(** ** make: the variables of docs/Makefile *)

Section Vars.
Import Makefile Make.
Variables cl env : gmap string string.

Lemma docs_SPHINXOPTS :
  value (read_vars docs_makefile cl env) "SPHINXOPTS" = default EmptyString ((cl ∪ env) !! "SPHINXOPTS").
Proof. read_var. Qed.

Lemma docs_SPHINXBUILD :
  value (read_vars docs_makefile cl env) "SPHINXBUILD" = default "sphinx-build" ((cl ∪ env) !! "SPHINXBUILD").
Proof. read_var. Qed.

Lemma docs_SOURCEDIR :
  value (read_vars docs_makefile cl env) "SOURCEDIR" = default "." (cl !! "SOURCEDIR").
Proof. read_var. Qed.

Lemma docs_BUILDDIR :
  value (read_vars docs_makefile cl env) "BUILDDIR" = default "_build" (cl !! "BUILDDIR").
Proof. read_var. Qed.

Lemma docs_O :
  value (read_vars docs_makefile cl env) "O" = default EmptyString ((cl ∪ env) !! "O").
Proof. read_var. Qed.
End Vars.

(** ** make: running docs/Makefile *)

Section AtWork.
Import Makefile Make.

(** On a machine where every command succeeds, with no variable set. *)
Example make_html :
  trace (make calm bare c_rules docs_makefile ∅ ∅ ["html"] tt).1
  = apidoc ++ ["sphinx-build -M html " +:+ dq +:+ "." +:+ dq +:+ " "
               +:+ dq +:+ "_build" +:+ dq +:+ "  "].
Proof. vm_compute. reflexivity. Qed.

(** [genapi] runs once in an invocation, however many goals need it. *)
Example make_htmlfast_latex :
  trace (make calm bare c_rules docs_makefile {[ "O" := "-q" ]} ∅ ["htmlfast"; "latex"] tt).1
  = apidoc ++ ["sphinx-build -M html " +:+ dq +:+ "." +:+ dq +:+ " "
               +:+ dq +:+ "_build" +:+ dq +:+ "  -q -D nbsphinx_execute=never";
               "sphinx-build -M latex " +:+ dq +:+ "." +:+ dq +:+ " "
               +:+ dq +:+ "_build" +:+ dq +:+ "  -q"].
Proof. vm_compute. reflexivity. Qed.

Example make_clean :
  trace (make calm bare c_rules docs_makefile ∅ {[ "BUILDDIR" := "elsewhere" ]} ["clean"] tt).1
  = ["rm -rf _build/*"; "rm -rf _auto"; "rm -rf api/generated";
     "sphinx-build -M clean " +:+ dq +:+ "." +:+ dq +:+ " "
     +:+ dq +:+ "_build" +:+ dq +:+ "  "].
Proof. vm_compute. reflexivity. Qed.

(** A failing sphinx-apidoc stops make at once. *)
Example make_html_apidoc_fails :
  observed (make (fun (w : unit) c => (w, if String.prefix "sphinx-apidoc" c then 1 else 0))
              bare c_rules docs_makefile ∅ ∅ ["html"] tt)
  = (tt, take 1 apidoc,
     Err (Failed "genapi" (default EmptyString (head apidoc)) 1)).
Proof. vm_compute. reflexivity. Qed.

Example make_object_file :
  (make calm bare c_rules docs_makefile ∅ ∅ ["driver.o"] tt).2 = Err (Unmodelled "driver.o").
Proof. vm_compute. reflexivity. Qed.
End AtWork.

Section MakeRun.
Import Makefile Make.
Context {W : Type}.
Variable exec : W → string → W * nat.
Variable fresh : W → string → list string → bool.
Variable builtin : string → bool.
Variable tbl : gmap string string.

Lemma run_recipe_cmds t ls st :
  run_recipe exec tbl t ls st =
  let '(w', tr, e) := run_cmds exec (cmds tbl t ls) (world st) in
  (State w' (trace st ++ tr) (seen st), e).
Proof.
  revert st; induction ls as [|l ls IH]; intros st; simpl.
  - rewrite app_nil_r. by destruct st.
  - destruct (exec (world st) _) as [w' rc] eqn:E. destruct rc as [|rc]; [|done].
    rewrite IH; simpl. destruct (run_cmds _ _ _) as [[w'' tr] e]. by rewrite <- app_assoc.
Qed.

Lemma run_cmds_app a b w :
  run_cmds exec (a ++ b) w =
  let '(w1, t1, e1) := run_cmds exec a w in
  match e1 with
  | Some e => (w1, t1, Some e)
  | None => let '(w2, t2, e2) := run_cmds exec b w1 in (w2, t1 ++ t2, e2)
  end.
Proof.
  revert w; induction a as [|[t c] a IH]; intros w; simpl.
  - by destruct (run_cmds exec b w) as [[? ?] ?].
  - destruct (exec w c) as [w' [|rc]]; [|done].
    rewrite IH. destruct (run_cmds exec a w') as [[w1 t1] [e|]]; [done|].
    by destruct (run_cmds exec b w1) as [[? ?] ?].
Qed.

Lemma run_cmds_prefix cs w : (run_cmds exec cs w).1.2 `prefix_of` cs.*2.
Proof.
  revert w; induction cs as [|[t c] cs IH]; intros w; simpl; [done|].
  destruct (exec w c) as [w' [|rc]] eqn:E.
  - specialize (IH w'). destruct (run_cmds exec cs w') as [[w'' tr] e]; simpl in *.
    by apply prefix_cons.
  - simpl. apply prefix_cons, prefix_nil.
Qed.

Lemma run_cmds_none cs w : (run_cmds exec cs w).2 = None → (run_cmds exec cs w).1.2 = cs.*2.
Proof.
  revert w; induction cs as [|[t c] cs IH]; intros w; simpl; [done|].
  destruct (exec w c) as [w' [|rc]] eqn:E; [|done].
  specialize (IH w'). destruct (run_cmds exec cs w') as [[w'' tr] e]; simpl in *.
  intros ->. by rewrite IH.
Qed.

Lemma run_cmds_all_ok cs w : (∀ w c, (exec w c).2 = 0) → (run_cmds exec cs w).2 = None.
Proof.
  intros Hok. revert w; induction cs as [|[t c] cs IH]; intros w; simpl; [done|].
  specialize (Hok w c). destruct (exec w c) as [w' rc]; simpl in Hok; subst rc.
  specialize (IH w'). by destruct (run_cmds exec cs w') as [[w'' tr] e].
Qed.

Lemma run_cmds_head t c cs w : head (run_cmds exec ((t, c) :: cs) w).1.2 = Some c.
Proof.
  simpl. destruct (exec w c) as [w' [|rc]]; [|done].
  by destruct (run_cmds exec cs w') as [[w'' tr] e].
Qed.

Lemma resolve_help : resolve builtin docs_makefile "help" = Recipe [] (recipe_of docs_makefile "help").
Proof. reflexivity. Qed.
Lemma resolve_clean : resolve builtin docs_makefile "clean" = Recipe [] (recipe_of docs_makefile "clean").
Proof. reflexivity. Qed.
Lemma resolve_genapi : resolve builtin docs_makefile "genapi" = Recipe [] (recipe_of docs_makefile "genapi").
Proof. reflexivity. Qed.
Lemma resolve_htmlfast :
  resolve builtin docs_makefile "htmlfast" = Recipe ["genapi"] (recipe_of docs_makefile "htmlfast").
Proof. reflexivity. Qed.
Lemma resolve_Makefile : resolve builtin docs_makefile "Makefile" = Nothing.
Proof. reflexivity. Qed.

Lemma resolve_other t :
  in_scope builtin t →
  t ≠ "help" → t ≠ "clean" → t ≠ "genapi" → t ≠ "htmlfast" → t ≠ "Makefile" →
  resolve builtin docs_makefile t = Recipe ["Makefile"; "genapi"] (catch_all docs_makefile)
  ∧ phony docs_makefile t = false.
Proof.
  intros (Hne & Hsp & Hb) H1 H2 H3 H4 H5.
  assert (Hdot : t ≠ ".PHONY").
  { intros ->. discriminate Hsp. }
  assert (Hpc : t ≠ "%" ∨ t = "%") by (destruct (decide (t = "%")); auto).
  unfold resolve. rewrite Hsp.
  assert (Hph : phony docs_makefile t = false).
  { simpl. rewrite !(proj2 (String.eqb_neq _ _)); done. }
  split; [|done].
  rewrite Hph, Hb.
  simpl.
  rewrite !(proj2 (String.eqb_neq _ _)); try done.
Qed.

Lemma update_step f t st ps r :
  seen st !! t = None →
  resolve builtin docs_makefile t = Recipe ps r →
  update exec fresh builtin docs_makefile tbl (S f) t st =
  match update_all (update exec fresh builtin docs_makefile tbl f) ps false st with
  | (st1, Err e) => (st1, Err e)
  | (st1, Ok newer) =>
      if phony docs_makefile t || newer || negb (fresh (world st1) t ps) then
        match run_recipe exec tbl t r st1 with
        | (st2, Some e) => (st2, Err e)
        | (st2, None) => (mark t true st2, Ok true)
        end
      else (mark t false st1, Ok false)
  end.
Proof. intros Hs Hr. simpl. rewrite Hs, Hr. reflexivity. Qed.

Lemma update_leaf f t st r :
  seen st !! t = None →
  resolve builtin docs_makefile t = Recipe [] r →
  phony docs_makefile t = true →
  update exec fresh builtin docs_makefile tbl (S f) t st =
  let '(w', tr, e) := run_cmds exec (cmds tbl t r) (world st) in
  match e with
  | Some x => (State w' (trace st ++ tr) (seen st), Err x)
  | None => (State w' (trace st ++ tr) (<[t := true]> (seen st)), Ok true)
  end.
Proof.
  intros Hs Hr Hp. rewrite (update_step _ _ _ _ _ Hs Hr). cbn [update_all]. rewrite Hp. cbn [orb].
  rewrite run_recipe_cmds. by destruct (run_cmds _ _ _) as [[w' tr] [e|]].
Qed.

Lemma update_Makefile f st :
  seen st !! "Makefile" = None →
  update exec fresh builtin docs_makefile tbl (S f) "Makefile" st = (mark "Makefile" true st, Ok true).
Proof. intros Hs. simpl. rewrite Hs. reflexivity. Qed.

End MakeRun.

Section MakeDocs.
Import Makefile Make.
Context {W : Type}.
Variable exec : W → string → W * nat.
Variable fresh : W → string → list string → bool.
Variable builtin : string → bool.
Variables cl env : gmap string string.

(** One goal: make runs the planned commands in order, up to the first
    failure, whatever the files on disk. *)
Lemma make_docs t w :
  (t ∉ named → in_scope builtin t) →
  observed (make exec fresh builtin docs_makefile cl env [t] w) =
  let '(w', tr, e) := run_cmds exec (docs_plan (read_vars docs_makefile cl env) t) w in
  (w', tr, match e with Some x => Err x | None => Ok true end).
Proof.
  intros Hin. unfold make, observed. set (tbl := read_vars docs_makefile cl env).
  change (S (length docs_makefile)) with 11. cbn [update_all].
  unfold docs_plan.
  destruct (String.eqb_spec t "help") as [->|H1].
  { rewrite (update_leaf _ _ _ _ _ _ _ _ (lookup_empty _) (resolve_help _) eq_refl).
    cbn [world trace seen]. by destruct (run_cmds _ _ _) as [[w' tr] [e|]]. }
  destruct (String.eqb_spec t "clean") as [->|H2].
  { rewrite (update_leaf _ _ _ _ _ _ _ _ (lookup_empty _) (resolve_clean _) eq_refl).
    cbn [world trace seen]. by destruct (run_cmds _ _ _) as [[w' tr] [e|]]. }
  destruct (String.eqb_spec t "genapi") as [->|H3].
  { rewrite (update_leaf _ _ _ _ _ _ _ _ (lookup_empty _) (resolve_genapi _) eq_refl).
    cbn [world trace seen]. by destruct (run_cmds _ _ _) as [[w' tr] [e|]]. }
  destruct (String.eqb_spec t "htmlfast") as [->|H4].
  { rewrite (update_step _ _ _ _ 10 _ _ _ _ (lookup_empty _) (resolve_htmlfast _)).
    cbn [update_all].
    rewrite (update_leaf _ _ _ _ _ _ _ _ (lookup_empty _) (resolve_genapi _) eq_refl).
    cbn [world trace seen]. rewrite run_cmds_app.
    destruct (run_cmds _ _ w) as [[w1 t1] [e1|]]; [done|].
    cbn [orb phony]. change (phony docs_makefile "htmlfast") with true. cbn [orb].
    rewrite run_recipe_cmds. cbn [world trace seen].
    by destruct (run_cmds _ _ w1) as [[w2 t2] [e2|]]. }
  destruct (String.eqb_spec t "Makefile") as [->|H5].
  { rewrite update_Makefile by apply lookup_empty. done. }
  assert (Hin' : in_scope builtin t).
  { apply Hin. unfold named. rewrite !elem_of_cons, elem_of_nil. tauto. }
  destruct (resolve_other builtin t Hin' H1 H2 H3 H4 H5) as [Hr Hp].
  rewrite (update_step _ _ _ _ 10 _ _ _ _ (lookup_empty _) Hr).
  cbn [update_all].
  rewrite update_Makefile by apply lookup_empty.
  rewrite (update_leaf _ _ _ _ _ "genapi" (mark "Makefile" true _)
             (recipe_of docs_makefile "genapi"));
    [|by simpl; rewrite lookup_insert_ne|apply resolve_genapi|done].
  cbn [world trace seen mark]. rewrite run_cmds_app.
  destruct (run_cmds _ _ w) as [[w1 t1] [e1|]]; [done|].
  cbn [orb]. rewrite orb_true_r. cbn [orb].
  rewrite run_recipe_cmds. cbn [world trace seen].
  by destruct (run_cmds _ _ w1) as [[w2 t2] [e2|]].
Qed.
End MakeDocs.


Section Plan.
Import Makefile Make.
Variable tbl : gmap string string.

Lemma docs_plan_eq t :
  docs_plan tbl t =
  if String.eqb t "help" then [("help", sphinx_build tbl "help")]
  else if String.eqb t "clean" then pair "clean" <$> (removals tbl ++ [sphinx_build tbl "clean"])
  else if String.eqb t "genapi" then pair "genapi" <$> apidoc
  else if String.eqb t "htmlfast" then
    (pair "genapi" <$> apidoc)
    ++ [("htmlfast", sphinx_build tbl "html" +:+ " -D nbsphinx_execute=never")]
  else if String.eqb t "Makefile" then []
  else (pair "genapi" <$> apidoc) ++ [(t, sphinx_build tbl t)].
Proof.
  unfold docs_plan.
  destruct (String.eqb_spec t "help") as [->|?];
    [|destruct (String.eqb_spec t "clean") as [->|?];
      [|destruct (String.eqb_spec t "genapi") as [->|?];
        [|destruct (String.eqb_spec t "htmlfast") as [->|?];
          [|destruct (String.eqb_spec t "Makefile") as [->|?]]]]].
  all: unfold cmds, sphinx_build, apidoc, removals, catch_all; simpl.
  all: repeat (rewrite ?append_empty_r, ?append_assoc; simpl); reflexivity.
Qed.

End Plan.

Lemma docs_plan_frame (tbl tbl' : gmap string string) t :
  (∀ n, n ∈ Make.recipe_vars → Make.value tbl' n = Make.value tbl n) →
  Make.docs_plan tbl' t = Make.docs_plan tbl t.
Proof.
  intros H. rewrite !docs_plan_eq. unfold Make.sphinx_build, Make.removals.
  rewrite !H; [done|unfold Make.recipe_vars; rewrite !elem_of_cons; tauto..].
Qed.

Section Quote.
Import Txt Make.

Lemma has_dq_app a b : has_dq (a +:+ b) = has_dq a || has_dq b.
Proof. induction a as [|c a IH]; [done | simpl; rewrite IH; apply orb_assoc]. Qed.

Lemma sphinx_build_has_dq tbl b : has_dq (sphinx_build tbl b) = true.
Proof.
  unfold sphinx_build. rewrite !has_dq_app.
  replace (has_dq dq) with true by reflexivity.
  rewrite !orb_true_r. reflexivity.
Qed.

Lemma sphinx_build_not_apidoc tbl b : sphinx_build tbl b ∉ apidoc.
Proof.
  intros Hin. assert (has_dq (sphinx_build tbl b) = false) as Hf.
  { unfold apidoc in Hin. rewrite !elem_of_cons, elem_of_nil in Hin.
    destruct Hin as [-> | [-> | [-> | []]]]; reflexivity. }
  by rewrite sphinx_build_has_dq in Hf.
Qed.

Lemma removals_not_apidoc tbl c : c ∈ removals tbl → c ∉ apidoc.
Proof.
  unfold removals, apidoc. rewrite !elem_of_cons, !elem_of_nil.
  intros [-> | [-> | [-> | []]]] [H | [H | [H | []]]]; simpl in H; discriminate H.
Qed.
End Quote.

Section Docs.
Import Makefile Make.
Context {W : Type}.
Variable exec : W → string → W * nat.
Variable fresh : W → string → list string → bool.
Variable builtin : string → bool.
Variables cl env : gmap string string.
Variable w : W.

Let tbl := read_vars docs_makefile cl env.
Let M t := make exec fresh builtin docs_makefile cl env [t] w.

Lemma make_docs_parts t :
  (t ∉ named → in_scope builtin t) →
  world (M t).1 = (run_cmds exec (docs_plan tbl t) w).1.1
  ∧ trace (M t).1 = (run_cmds exec (docs_plan tbl t) w).1.2
  ∧ (M t).2 = match (run_cmds exec (docs_plan tbl t) w).2 with
              | Some x => Err x
              | None => Ok true
              end.
Proof.
  intros Hs. pose proof (make_docs exec fresh builtin cl env t w Hs) as H.
  unfold observed in H. fold tbl in H. fold (M t) in H.
  destruct (run_cmds exec (docs_plan tbl t) w) as [[w' tr] e]; simpl.
  by injection H as -> -> ->.
Qed.

(** Shape of a run: the commands run are a prefix of the plan, all of it
    when make succeeds, and make succeeds when every command does. *)
Lemma make_docs_trace t :
  (t ∉ named → in_scope builtin t) →
  trace (M t).1 `prefix_of` (docs_plan tbl t).*2
  ∧ (is_Ok (M t).2 → trace (M t).1 = (docs_plan tbl t).*2)
  ∧ ((∀ w c, (exec w c).2 = 0) → is_Ok (M t).2).
Proof.
  intros Hs. destruct (make_docs_parts t Hs) as (_ & Ht & Hr).
  rewrite Ht, Hr. split; [apply run_cmds_prefix|]. split.
  - intros [b Hb]. apply run_cmds_none. by destruct (run_cmds _ _ _).2.
  - intros Hok. rewrite run_cmds_all_ok by done. by exists true.
Qed.

Lemma plan_help : (docs_plan tbl "help").*2 = [sphinx_build tbl "help"].
Proof. by rewrite docs_plan_eq. Qed.
Lemma plan_clean : (docs_plan tbl "clean").*2 = removals tbl ++ [sphinx_build tbl "clean"].
Proof. by rewrite docs_plan_eq. Qed.
Lemma plan_genapi : (docs_plan tbl "genapi").*2 = apidoc.
Proof. by rewrite docs_plan_eq. Qed.
Lemma plan_htmlfast : (docs_plan tbl "htmlfast").*2 = apidoc ++ [sphinx_build_fast tbl].
Proof. by rewrite docs_plan_eq. Qed.
Lemma plan_Makefile : (docs_plan tbl "Makefile").*2 = [].
Proof. by rewrite docs_plan_eq. Qed.
Lemma plan_other t :
  t ∉ named → (docs_plan tbl t).*2 = apidoc ++ [sphinx_build tbl t].
Proof.
  unfold named. rewrite !not_elem_of_cons. intros (?&?&?&?&?&_).
  rewrite docs_plan_eq. by rewrite !(proj2 (String.eqb_neq _ _)).
Qed.

Lemma trace_head_genapi t :
  t ≠ "help" → t ≠ "clean" → t ≠ "Makefile" →
  head (run_cmds exec (docs_plan tbl t) w).1.2 = head apidoc.
Proof.
  intros Nh Nc Nm. rewrite docs_plan_eq.
  rewrite (proj2 (String.eqb_neq _ _) Nh), (proj2 (String.eqb_neq _ _) Nc),
    (proj2 (String.eqb_neq _ _) Nm).
  unfold apidoc. cbn [fmap list_fmap app].
  destruct (String.eqb t "genapi"), (String.eqb t "htmlfast").
  all: apply run_cmds_head.
Qed.

End Docs.

(** ** make: what holds of every invocation *)

Section Runs.
Import Makefile Make.
Context {W : Type}.
Variable exec : W → string → W * nat.

Lemma replay_app a b w : replay exec (a ++ b) w = replay exec b (replay exec a w).
Proof. unfold replay. apply foldl_app. Qed.

Lemma status_app a pre c w : status exec (a ++ pre) c w = status exec pre c (replay exec a w).
Proof. unfold status. by rewrite replay_app. Qed.

Lemma run_of_replay w tr w' f : run_of exec w tr w' f → w' = replay exec tr w.
Proof. induction 1; [done | by rewrite IHrun_of | done]. Qed.

Lemma run_of_app w a w1 b w2 f :
  run_of exec w a w1 false → run_of exec w1 b w2 f → run_of exec w (a ++ b) w2 f.
Proof.
  intros Ha. remember false as fa eqn:Hf. revert Hf.
  induction Ha as [w|w c tr w' f' Hc Ha IH|w c Hc]; intros Hf Hb; simpl; [done| |done].
  apply run_next; auto.
Qed.

(** In a run a failing command is the last one, and the run is flagged. *)
Lemma run_of_fail_last w tr w' f pre c post :
  run_of exec w tr w' f → tr = pre ++ c :: post → status exec pre c w ≠ 0 →
  post = [] ∧ f = true.
Proof.
  intros Hr. revert pre. induction Hr as [w|w c0 tr w' f Hc Hr IH|w c0 Hc]; intros pre Heq Hs.
  - by destruct pre.
  - destruct pre as [|p pre]; simplify_eq/=;
      [unfold status, replay in Hs; simpl in Hs; congruence..|].
    apply (IH pre eq_refl). exact Hs.
  - destruct pre as [|p pre]; simplify_eq/=; [done|]. by destruct pre.
Qed.

(** A flagged run ends on a command that failed; an unflagged one has none. *)
Lemma run_of_flagged w tr w' :
  run_of exec w tr w' true → ∃ pre c, tr = pre ++ [c] ∧ status exec pre c w ≠ 0.
Proof.
  intros Hr. remember true as f eqn:Hf. revert Hf.
  induction Hr as [w|w c0 tr w' f Hc Hr IH|w c0 Hc]; intros Hf; [done| |].
  - destruct (IH Hf) as (pre & c & -> & Hs). exists (c0 :: pre), c. split; [done|].
    by unfold status, replay in *.
  - exists [], c0. split; [done|]. by unfold status, replay.
Qed.

End Runs.

Section Invariant.
Import Makefile Make.
Context {W : Type}.
Variable exec : W → string → W * nat.
Variable fresh : W → string → list string → bool.
Variable builtin : string → bool.
Variable mk : makefile.
Variable tbl : gmap string string.

#[local] Abbreviation produced := (Make.produced mk tbl).
#[local] Abbreviation advance := (Make.advance exec mk tbl).

Lemma advance_refl st r : failed r = false → advance st st r.
Proof.
  intros Hf. exists []. rewrite app_nil_r. repeat split; [rewrite Hf; constructor|done|].
  intros tgt c code ->. done.
Qed.

Lemma advance_mark st st' r t b : advance st st' r → advance st (mark t b st') r.
Proof. intros (tr & ? & ? & ? & ?). by exists tr. Qed.

Lemma advance_trans st st1 st2 b r :
  advance st st1 (Ok b) → advance st1 st2 r → advance st st2 r.
Proof.
  intros (t1 & H1 & R1 & P1 & _) (t2 & H2 & R2 & P2 & F2).
  exists (t1 ++ t2). rewrite H2, H1, app_assoc. split; [done|]. split; [|split].
  - eapply run_of_app; eauto.
  - by apply Forall_app.
  - intros tgt c code Hr. destruct (F2 tgt c code Hr) as (pre & -> & ->).
    exists (t1 ++ pre). rewrite app_assoc. split; [done|].
    by rewrite status_app, <- (run_of_replay exec _ _ _ _ R1).
Qed.

Lemma run_recipe_advance t ls st :
  Forall (fun l => l ∈ recipes mk) ls →
  advance st (run_recipe exec tbl t ls st).1
    (match (run_recipe exec tbl t ls st).2 with Some e => Err e | None => Ok true end)
  ∧ ∀ e, (run_recipe exec tbl t ls st).2 = Some e → ∃ c code, e = Failed t c code.
Proof.
  intros Hls. revert st. induction Hls as [|l ls Hl Hls IH]; intros st; simpl.
  { split; [by apply advance_refl|done]. }
  destruct (exec (world st) (expand tbl t (body l))) as [w' rc] eqn:E.
  assert (Hp : produced (expand tbl t (body l))) by (by exists t, l).
  destruct rc as [|rc].
  - set (st1 := State w' (trace st ++ [expand tbl t (body l)]) (seen st)).
    destruct (IH st1) as [IH1 IH2]. split; [|exact IH2].
    apply (advance_trans st st1 _ true); [|exact IH1].
    exists [expand tbl t (body l)]. split; [done|]. split; [|split; [by constructor|done]].
    simpl. replace w' with (exec (world st) (expand tbl t (body l))).1 by (by rewrite E).
    apply run_next; [by rewrite E|constructor].
  - simpl. split; [|intros e [= <-]; eauto].
    exists [expand tbl t (body l)]. split; [done|]. split; [|split; [by constructor|]].
    + simpl. replace w' with (exec (world st) (expand tbl t (body l))).1 by (by rewrite E).
      apply run_stop. by rewrite E.
    + intros tgt c code [= <- <- <-]. exists []. split; [done|].
      unfold status, replay; simpl. by rewrite E.
Qed.

Lemma update_all_advance upd :
  (∀ t st, advance st (upd t st).1 (upd t st).2) →
  ∀ ps acc st, advance st (update_all upd ps acc st).1 (update_all upd ps acc st).2.
Proof.
  intros Hupd ps. induction ps as [|p ps IH]; intros acc st; simpl.
  { by apply advance_refl. }
  specialize (Hupd p st). destruct (upd p st) as [st1 [b|e]]; simpl in *; [|done].
  eapply advance_trans; [exact Hupd|apply IH].
Qed.

Lemma explicit_rule_recipes t ps r :
  explicit_rule mk t = Some (ps, r) → Forall (fun l => l ∈ recipes mk) r.
Proof.
  unfold recipes. induction mk as [|s mk' IH]; simpl; [done|].
  destruct s as [| |target ps' r']; simpl; auto.
  destruct (negb (is_pattern target) && String.eqb target t).
  - intros [= <- <-]. apply Forall_forall. intros l Hl. apply elem_of_app. by left.
  - intros H. eapply Forall_impl; [exact (IH H)|]. intros l Hl. apply elem_of_app. by right.
Qed.

Lemma match_anything_recipes ps r :
  match_anything mk = Some (ps, r) → Forall (fun l => l ∈ recipes mk) r.
Proof.
  unfold recipes. induction mk as [|s mk' IH]; simpl; [done|].
  destruct s as [| |target ps' r']; simpl; auto.
  destruct (String.eqb target "%").
  - intros [= <- <-]. apply Forall_forall. intros l Hl. apply elem_of_app. by left.
  - intros H. eapply Forall_impl; [exact (IH H)|]. intros l Hl. apply elem_of_app. by right.
Qed.

Lemma resolve_recipes t ps r :
  resolve builtin mk t = Recipe ps r → Forall (fun l => l ∈ recipes mk) r.
Proof.
  unfold resolve. destruct (is_special t); [done|].
  destruct (explicit_rule mk t) as [[ps' r']|] eqn:He.
  - intros [= <- <-]. by eapply explicit_rule_recipes.
  - destruct (phony mk t); [done|]. destruct (builtin t); [done|].
    destruct (match_anything mk) as [[ps' r']|] eqn:Hm; [|done].
    intros [= <- <-]. by eapply match_anything_recipes.
Qed.

(** Whatever the makefile, the goal and the state: make only runs commands
    of the file, one after the other, and stops at the first that fails. *)
Lemma update_advance fuel : ∀ t st,
  advance st (update exec fresh builtin mk tbl fuel t st).1
             (update exec fresh builtin mk tbl fuel t st).2.
Proof.
  induction fuel as [|fuel IH]; intros t st; simpl.
  { by apply advance_refl. }
  destruct (seen st !! t); [by apply advance_refl|].
  destruct (resolve builtin mk t) as [ps r| | |] eqn:Hr.
  - pose proof (update_all_advance _ IH ps false st) as Hps.
    destruct (update_all _ ps false st) as [st1 [newer|e]]; simpl in *; [|done].
    destruct (phony mk t || newer || negb (fresh (world st1) t ps)).
    + destruct (run_recipe_advance t r st1 (resolve_recipes _ _ _ Hr)) as [Hrun _].
      destruct (run_recipe exec tbl t r st1) as [st2 [e|]]; simpl in *.
      * by eapply advance_trans.
      * apply advance_mark. by eapply advance_trans.
    + apply advance_mark. eapply advance_trans; [exact Hps|]. by apply advance_refl.
  - apply advance_mark. by apply advance_refl.
  - by apply advance_refl.
  - destruct (fresh (world st) t []); simpl.
    + apply advance_mark. by apply advance_refl.
    + by apply advance_refl.
Qed.

Lemma make_advance cl env goals w :
  tbl = read_vars mk cl env →
  advance (State w [] ∅) (make exec fresh builtin mk cl env goals w).1
          (make exec fresh builtin mk cl env goals w).2.
Proof.
  intros Ht. unfold make. rewrite <- Ht.
  apply update_all_advance. intros t st. apply update_advance.
Qed.
End Invariant.

Section Errors.
Import Makefile Make.
Context {W : Type}.
Variable exec : W → string → W * nat.
Variable fresh : W → string → list string → bool.
Variable builtin : string → bool.
Variable mk : makefile.
Variable tbl : gmap string string.

#[local] Abbreviation upd := (update exec fresh builtin mk tbl).

Lemma run_recipe_failure t ls st e :
  (run_recipe exec tbl t ls st).2 = Some e → is_failure e.
Proof.
  revert st. induction ls as [|l ls IH]; intros st; simpl; [done|].
  destruct (exec (world st) _) as [w' [|rc]]; [apply IH|].
  simpl. intros [= <-]. by eexists _, _, _.
Qed.

Lemma update_all_failure (f : string → state (W := W) → state * res) ps :
  (∀ p, p ∈ ps → ∀ st e, (f p st).2 = Err e → is_failure e) →
  ∀ acc st e, (update_all f ps acc st).2 = Err e → is_failure e.
Proof.
  induction ps as [|p ps IH]; intros Hps acc st e; simpl; [done|].
  destruct (f p st) as [st1 [b|e1]] eqn:Hp; simpl.
  - apply IH. intros q Hq. apply Hps. by right.
  - intros [= <-]. apply (Hps p (list_elem_of_here _ _) st). by rewrite Hp.
Qed.

(** A target with a recipe fails only by a failing command, if that is so
    for its prerequisites. *)
Lemma update_recipe_failure f t ps r :
  resolve builtin mk t = Recipe ps r →
  (∀ p, p ∈ ps → ∀ st e, (upd f p st).2 = Err e → is_failure e) →
  ∀ st e, (upd (S f) t st).2 = Err e → is_failure e.
Proof.
  intros Hr Hps st e. simpl. destruct (seen st !! t); [done|]. rewrite Hr.
  pose proof (update_all_failure (upd f) ps Hps false st) as Hall.
  destruct (update_all (upd f) ps false st) as [st1 [newer|e1]]; simpl in *.
  - destruct (phony mk t || newer || negb (fresh (world st1) t ps)); [|done].
    pose proof (run_recipe_failure t r st1) as Hrun.
    destruct (run_recipe exec tbl t r st1) as [st2 [e2|]]; simpl in *; [|done].
    intros [= <-]. by apply Hrun.
  - intros [= <-]. by apply Hall.
Qed.

Lemma update_nothing_failure f t :
  resolve builtin mk t = Nothing → ∀ st e, (upd (S f) t st).2 ≠ Err e.
Proof. intros Hr st e. simpl. destruct (seen st !! t); [done|]. by rewrite Hr. Qed.
End Errors.

Section DocsAnyGoals.
Import Makefile Make.
Context {W : Type}.
Variable exec : W → string → W * nat.
Variable fresh : W → string → list string → bool.
Variable builtin : string → bool.
Variables cl env : gmap string string.

#[local] Abbreviation tbl := (read_vars docs_makefile cl env).

(** The commands docs/Makefile can produce. *)
Lemma produced_docs c :
  produced docs_makefile tbl c →
  c ∈ apidoc ∨ c ∈ removals tbl ∨ (∃ b, c = sphinx_build tbl b)
  ∨ c = sphinx_build tbl "html" +:+ " -D nbsphinx_execute=never".
Proof.
  intros (t & l & Hl & ->). unfold recipes in Hl. simpl in Hl.
  rewrite !elem_of_cons, elem_of_nil in Hl.
  unfold apidoc, removals. rewrite !elem_of_cons, !elem_of_nil.
  assert (Hs : ∀ b,
    expand tbl t ([Ref "SPHINXBUILD"; Text " -M "; Text b; Text " "] ++ dirs_and_opts)
    = sphinx_build tbl b).
  { intros b. unfold sphinx_build, dirs_and_opts, expand. simpl.
    by repeat (rewrite ?append_empty_r, ?append_assoc; simpl). }
  destruct Hl as [->|[->|[->|[->|[->|[->|[->|[->|[->|[->|[]]]]]]]]]]]; simpl body.
  - right; right; left. exists "help". rewrite <- Hs. unfold expand; simpl.
    by repeat (rewrite ?append_empty_r, ?append_assoc; simpl).
  - right; left. left. unfold expand; simpl.
    by repeat (rewrite ?append_empty_r, ?append_assoc; simpl).
  - right; left. right; left. reflexivity.
  - right; left. right; right; left. reflexivity.
  - right; right; left. exists "clean". rewrite <- Hs. unfold expand; simpl.
    by repeat (rewrite ?append_empty_r, ?append_assoc; simpl).
  - left. left. unfold expand; simpl. by repeat (rewrite ?append_empty_r, ?append_assoc; simpl).
  - left. right; left. reflexivity.
  - left. right; right; left. reflexivity.
  - right; right; right. rewrite <- Hs. unfold expand; simpl.
    by repeat (rewrite ?append_empty_r, ?append_assoc; simpl).
  - right; right; left. exists t. rewrite <- Hs. unfold expand; simpl.
    by repeat (rewrite ?append_empty_r, ?append_assoc; simpl).
Qed.

(** A goal in scope fails only by a failing command. *)
Lemma update_docs_failure f t :
  covered builtin t →
  ∀ st e, (update exec fresh builtin docs_makefile tbl (S (S f)) t st).2 = Err e → is_failure e.
Proof.
  intros Hin.
  assert (Hgen : ∀ g st e,
    (update exec fresh builtin docs_makefile tbl (S g) "genapi" st).2 = Err e → is_failure e).
  { intros g. eapply update_recipe_failure; [apply resolve_genapi|].
    intros p Hp. by apply elem_of_nil in Hp. }
  assert (Hmk : ∀ g st e,
    (update exec fresh builtin docs_makefile tbl (S g) "Makefile" st).2 = Err e → is_failure e).
  { intros g st e He. by apply update_nothing_failure in He. }
  destruct (decide (t = "help")) as [->|H1].
  { eapply update_recipe_failure; [apply resolve_help|].
    intros p Hp. by apply elem_of_nil in Hp. }
  destruct (decide (t = "clean")) as [->|H2].
  { eapply update_recipe_failure; [apply resolve_clean|].
    intros p Hp. by apply elem_of_nil in Hp. }
  destruct (decide (t = "genapi")) as [->|H3]; [apply Hgen|].
  destruct (decide (t = "htmlfast")) as [->|H4].
  { eapply update_recipe_failure; [apply resolve_htmlfast|].
    intros p Hp. apply list_elem_of_singleton in Hp as ->. apply Hgen. }
  destruct (decide (t = "Makefile")) as [->|H5]; [apply Hmk|].
  assert (Hin' : in_scope builtin t).
  { destruct Hin as [Hin|Hin]; [|done].
    unfold named in Hin. rewrite !elem_of_cons, elem_of_nil in Hin. tauto. }
  destruct (resolve_other builtin t Hin' H1 H2 H3 H4 H5) as [Hr _].
  eapply update_recipe_failure; [exact Hr|].
  intros p Hp. rewrite !elem_of_cons, elem_of_nil in Hp.
  destruct Hp as [->|[->|[]]]; [apply Hmk|apply Hgen].
Qed.

Lemma make_docs_failure goals w e :
  cl !! ".DEFAULT_GOAL" = None →
  Forall (covered builtin) goals →
  (make exec fresh builtin docs_makefile cl env goals w).2 = Err e → is_failure e.
Proof.
  intros Hd Hg. unfold make.
  apply update_all_failure. intros p Hp.
  apply (update_docs_failure 9).
  destruct goals as [|g goals].
  - unfold default_goal in Hp. rewrite Hd in Hp. simpl in Hp.
    apply list_elem_of_singleton in Hp as ->. left. apply list_elem_of_here.
  - by eapply Forall_forall in Hg.
Qed.
End DocsAnyGoals.

(** ** The notebooks *)

Section Lifecycle.
Import Txt Notebook Py Session.

Lemma mem_elem_of s l : mem s l = true ↔ s ∈ l.
Proof.
  unfold mem. induction l as [|x l IH]; simpl.
  - split; [done | intros H; by apply elem_of_nil in H].
  - rewrite orb_true_iff, IH, elem_of_cons, String.eqb_eq. tauto.
Qed.

(** What the monitor guarantees at each read or write of a parameter. *)
Lemma monitor_sound es : ∀ open open',
  monitor open es = Some open' →
  ∀ i e o, es !! i = Some e → accessed e = Some o →
    (o ∈ open ∧ ∀ k e', k < i → es !! k = Some e' → closes o e' = false)
    ∨ opened_before es i o.
Proof.
  induction es as [|e0 es IH]; intros open open' Hm i e o Hi Ha; [done|].
  simpl in Hm. destruct (step open e0) as [open1|] eqn:Hs; [|done].
  destruct i as [|i]; simpl in Hi.
  - injection Hi as ->. left. split; [|lia].
    destruct e; simpl in Ha, Hs; try done; injection Ha as ->;
      destruct (mem o open) eqn:Hmem; try done; by apply mem_elem_of.
  - destruct (IH _ _ Hm i e o Hi Ha) as [[Ho Hq] | (j & cls & Hj & Hopen & Hq)].
    + assert (Hcase : (closes o e0 = false ∧ o ∈ open) ∨ ∃ cls, e0 = EOpen o cls).
      { destruct e0; simpl in Hs; simplify_eq/=.
        - apply elem_of_cons in Ho as [->|Ho]; eauto.
        - destruct (mem obj open); simplify_eq. auto.
        - destruct (mem obj open); simplify_eq. auto.
        - auto.
        - apply list_elem_of_filter in Ho as [Hne Ho]. left. split; [|done].
          by apply String.eqb_neq.
        - apply list_elem_of_filter in Ho as [Hne Ho]. left. split; [|done].
          by apply String.eqb_neq.
        - by apply elem_of_nil in Ho.
        - auto. }
      destruct Hcase as [[Hc Ho'] | [cls ->]].
      * left. split; [done|]. intros [|k] e' Hk He'; simpl in He'.
        -- by injection He' as <-.
        -- apply (Hq k); [lia|done].
      * right. exists 0, cls. split; [lia|]. split; [done|].
        intros [|k] e' Hk He'; [lia|]. simpl in He'. apply (Hq k); [lia|done].
    + right. exists (S j), cls. split; [lia|]. split; [done|].
      intros [|k] e' Hk He'; [lia|]. simpl in He'. apply (Hq k); [lia|done].
Qed.

Lemma lifecycle_opened es :
  lifecycle_ok es = true →
  ∀ i e o, es !! i = Some e → accessed e = Some o → opened_before es i o.
Proof.
  unfold lifecycle_ok. destruct (monitor [] es) as [open'|] eqn:Hm; [|done].
  intros _ i e o Hi Ha.
  destruct (monitor_sound es [] open' Hm i e o Hi Ha) as [[Ho _]|H]; [|done].
  by apply elem_of_nil in Ho.
Qed.

Lemma silent_sound es : ∀ closed,
  silent_after_close closed es = true →
  ∀ j e', es !! j = Some e' → is_Some (accessed e') →
    closed = false ∧ ∀ i e, i < j → es !! i = Some e → is_close e = false.
Proof.
  induction es as [|e0 es IH]; intros closed Hs j e' Hj Ha; [done|].
  simpl in Hs. destruct j as [|j]; simpl in Hj.
  - injection Hj as ->. destruct Ha as [o Ho]. rewrite Ho in Hs.
    apply andb_true_iff in Hs as [Hc _]. split; [by destruct closed|lia].
  - destruct (accessed e0) as [o0|] eqn:Ha0.
    + apply andb_true_iff in Hs as [Hc Hs]. destruct (IH _ Hs j e' Hj Ha) as [_ Hq].
      split; [by destruct closed|]. intros [|i] e Hi He; simpl in He.
      * injection He as <-. by destruct e0.
      * apply (Hq i); [lia|done].
    + destruct (IH _ Hs j e' Hj Ha) as [Hc Hq]. apply orb_false_iff in Hc as [-> Hc0].
      split; [done|]. intros [|i] e Hi He; simpl in He.
      * by injection He as <-.
      * apply (Hq i); [lia|done].
Qed.

(** C4.  Each example notebook keeps to the open/close lifecycle: a
    parameter is read or written only on an object that an earlier
    statement constructed and that nothing has closed since (neither its
    [close], nor [apt_clean_up], nor a [close_all]); once a [close] or
    [apt_clean_up] has run no parameter is read or written any more; and the
    last operation of the notebook is such a close. *)
Theorem notebooks_follow_lifecycle :
  Forall (fun nb =>
    let es := events nb in
    lifecycle_ok es = true
    ∧ (∀ i e o, es !! i = Some e → accessed e = Some o → opened_before es i o)
    ∧ (∀ i j e e', i < j → es !! i = Some e → is_close e = true →
                   es !! j = Some e' → accessed e' = None)
    ∧ (∃ e, last es = Some e ∧ is_close e = true))
  examples.
Proof.
  unfold examples.
  apply Forall_cons_2; [|apply Forall_cons_2; [|apply Forall_cons_2; [|apply Forall_nil_2]]].
  all: cbv zeta;
    match goal with |- lifecycle_ok (events ?nb) = true ∧ _ => set (es := events nb) end;
    assert (Hok : lifecycle_ok es = true) by (vm_compute; reflexivity);
    assert (Hsil : silent_after_close false es = true) by (vm_compute; reflexivity);
    assert (Hlast : ∃ e, last es = Some e ∧ is_close e = true)
      by (vm_compute; eexists; split; reflexivity);
    clearbody es.
  all: split; [exact Hok|]; split; [exact (lifecycle_opened es Hok)|]; split; [|exact Hlast].
  all: intros i j e e' Hij Hi Hc Hj;
    destruct (accessed e') as [o|] eqn:Ha; [|reflexivity];
    destruct (silent_sound es false Hsil j e' Hj) as [_ Hq]; [by rewrite Ha|];
    rewrite (Hq i e Hij Hi) in Hc; discriminate Hc.
Qed.
End Lifecycle.

Section Values.
Import Txt Notebook Py Session.

Lemma events_MFF10x :
  events Thorlabs_MFF10x
  = [EOpen "apt" "Thorlabs_APT"; EOpen "thorlabs_mff10x" "Thorlabs_MFF10x";
     EGet "thorlabs_mff10x" "position"; ESet "thorlabs_mff10x" "position" "1";
     EGet "thorlabs_mff10x" "position"; EClose "thorlabs_mff10x"; ECleanUp "apt"].
Proof. vm_compute. reflexivity. Qed.


End Values.

Section Raising.
Import Notebook Py Session.
Context {H E : Type}.
Variable perform : H → event → H * option E.

(** The first call that raises ends the run: the exception is the result as
    it was raised, and no later call is made. *)
Lemma run_events_raise pre e post h x :
  (run_events perform pre h).2 = None →
  (perform (run_events perform pre h).1.1 e).2 = Some x →
  run_events perform (pre ++ e :: post) h
  = ((perform (run_events perform pre h).1.1 e).1, pre ++ [e], Some x).
Proof.
  revert h; induction pre as [|e0 pre IH]; intros h; simpl.
  - intros _ Hx. destruct (perform h e) as [h' [y|]]; simpl in *; by simplify_eq.
  - destruct (perform h e0) as [h' [y|]]; [done|].
    specialize (IH h'). destruct (run_events perform pre h') as [[h'' done'] r]; simpl in *.
    intros Hr Hx. by rewrite (IH Hr Hx).
Qed.

End Raising.

Section Static.
Import Txt Notebook Py Session.

Lemma examples_have_no_compound :
  Forall (fun nb => Forall (fun s => ∀ k, s ≠ Compound k) (stmts nb)) examples.
Proof.
  forall_examples; forall_computed; intros k; discriminate.
Qed.

Lemma examples_delegate : Forall (fun nb => delegates [] (stmts nb) = true) examples.
Proof. forall_examples; vm_compute; reflexivity. Qed.
End Static.

Section Passthrough.
Import Driver.
Context {HW V : Type}.
Variable dll_set : string → V → HW → HW.
Variable dll_get : string → HW → V.

Lemma session_reads h qs p :
  session dll_set dll_get ((PGet <$> qs) ++ [PGet p]) (Drv (Some h))
  = Some (((fun q => Some (dll_get q h)) <$> qs) ++ [Some (dll_get p h)], Drv (Some h)).
Proof.
  induction qs as [|q qs IH]; [reflexivity|].
  change (session dll_set dll_get ((PGet <$> q :: qs) ++ [PGet p]) (Drv (Some h)))
    with (match session dll_set dll_get ((PGet <$> qs) ++ [PGet p]) (Drv (Some h)) with
          | None => None
          | Some (rs, d) => Some (Some (dll_get q h) :: rs, d)
          end).
  by rewrite IH.
Qed.
End Passthrough.

(** C5.  A parameter is a pass-through to the vendor's hardware state: on an
    open driver, [set(v)] followed by reads only (of any parameters) and then
    [get()] returns what the DLL reports for the state that the DLL's own set
    call produced; the driver keeps the handle and no value of its own, and a
    closed driver answers no call.  In the PRM1Z8 notebook the value read
    back after [set(200.0)] is the stage's 200.00189208984375, not the text
    that was set. *)
Theorem set_then_get_passes_through {HW V : Type}
    (dll_set : string → V → HW → HW) (dll_get : string → HW → V)
    (h : HW) (p : string) (v : V) (qs : list string) :
  Driver.session dll_set dll_get
    (Driver.PSet p v :: (Driver.PGet <$> qs) ++ [Driver.PGet p]) (Driver.Drv (Some h))
  = Some (None :: ((fun q => Some (dll_get q (dll_set p v h))) <$> qs)
               ++ [Some (dll_get p (dll_set p v h))],
          Driver.Drv (Some (dll_set p v h)))
  ∧ (∀ o, Driver.call dll_set dll_get o (Driver.close (Driver.Drv (Some h))) = None)
  ∧ Session.writes "position" Notebook.Thorlabs_PRM1Z8 = [("thorlabs_prm1z8", "200.0")]
  ∧ last (Session.reads "position" Notebook.Thorlabs_PRM1Z8)
    = Some ("thorlabs_prm1z8", "200.00189208984375").
Proof.
  split; [|split; [done|split; vm_compute; reflexivity]].
  change (Driver.session dll_set dll_get
            (Driver.PSet p v :: (Driver.PGet <$> qs) ++ [Driver.PGet p]) (Driver.Drv (Some h)))
    with (match Driver.session dll_set dll_get ((Driver.PGet <$> qs) ++ [Driver.PGet p])
                  (Driver.Drv (Some (dll_set p v h))) with
          | None => None
          | Some (rs, d) => Some (None :: rs, d)
          end).
  by rewrite session_reads.
Qed.

(** ** make: the claims about the documentation build *)

Section Claims.
Import Makefile Make Notebook.











End Claims.

(** ** The claims as first stated, at the inputs where they fail *)

Section Counterexamples.
Import Makefile Make.

Lemma calm_trace t :
  t ∈ named →
  trace (make calm bare c_rules docs_makefile ∅ ∅ [t] tt).1
  = (docs_plan (read_vars docs_makefile ∅ ∅) t).*2.
Proof.
  intros Hn.
  destruct (make_docs_trace calm bare c_rules ∅ ∅ tt t) as (_ & H2 & H3); [done|].
  apply H2, H3. done.
Qed.




End Counterexamples.

(** ** The theorems at work: [make html] on a machine where all goes well *)

Section Witnesses.
Import Makefile Make.

Lemma html_in_scope : in_scope c_rules "html".
Proof. unfold in_scope. split; [discriminate | split; reflexivity]. Defined.





End Witnesses.

(** * Several goals in one invocation *)

Section Steps.
Import Makefile Make Schedule.
Context {W : Type}.
Variable exec : W → string → W * nat.
Variable fresh : W → string → list string → bool.
Variable builtin : string → bool.
Variable tbl : gmap string string.

#[local] Abbreviation upd := (update exec fresh builtin docs_makefile tbl).

Lemma all_remade_insert seen t : all_remade seen → all_remade (<[t := true]> seen).
Proof.
  intros H k b. destruct (decide (t = k)) as [->|Hne].
  - rewrite lookup_insert_eq. congruence.
  - rewrite lookup_insert_ne by done. apply H.
Qed.

Lemma follows_seen f t st :
  all_remade (seen st) → is_Some (seen st !! t) → follows exec (upd (S f) t st) st [] (seen st).
Proof.
  intros Hall [b Hb]. unfold follows; simpl. rewrite Hb, app_nil_r.
  rewrite (Hall _ _ Hb). by destruct st.
Qed.

(** [help], [clean] and [genapi] at any point of an invocation. *)
Lemma follows_leaf f t st :
  all_remade (seen st) →
  t ∈ ["help"; "clean"; "genapi"] →
  follows exec (upd (S f) t st) st (leaf tbl (seen st) t).1 (leaf tbl (seen st) t).2.
Proof.
  intros Hall Ht. unfold leaf. destruct (seen st !! t) as [b|] eqn:Hs.
  { apply follows_seen; [done|by rewrite Hs]. }
  assert (Hr : resolve builtin docs_makefile t = Recipe [] (recipe_of docs_makefile t)
               ∧ phony docs_makefile t = true).
  { rewrite !elem_of_cons, elem_of_nil in Ht. by destruct Ht as [->|[->|[->|[]]]]. }
  destruct Hr as [Hr Hp].
  rewrite (update_leaf exec fresh builtin tbl f t st _ Hs Hr Hp).
  unfold follows; simpl. destruct (run_cmds _ _ _) as [[w' tr] [e|]]; eauto.
Qed.

Lemma leaf_remade seen t : all_remade seen → all_remade (leaf tbl seen t).2.
Proof.
  intros H. unfold leaf. destruct (seen !! t); [done|]. by apply all_remade_insert.
Qed.

Lemma follows_Makefile f st :
  all_remade (seen st) →
  ∃ b,
    upd (S f) "Makefile" st
    = (State (world st) (trace st)
         (match seen st !! "Makefile" with
          | Some _ => seen st
          | None => <["Makefile" := true]> (seen st)
          end), Ok true)
    ∧ b = true.
Proof.
  intros Hall. exists true. split; [|done]. destruct (seen st !! "Makefile") as [b|] eqn:Hs.
  - simpl. rewrite Hs, (Hall _ _ Hs). by destruct st.
  - by rewrite update_Makefile.
Qed.

(** Any covered goal at any point of an invocation: make runs the commands
    of [goal_plan], whatever the files on disk. *)
Lemma follows_goal f t st :
  all_remade (seen st) →
  covered builtin t →
  follows exec (upd (S (S f)) t st) st
          (goal_plan tbl (seen st) t).1 (goal_plan tbl (seen st) t).2.
Proof.
  intros Hall Hc. unfold goal_plan. destruct (seen st !! t) as [b|] eqn:Hs.
  { apply follows_seen; [done|by rewrite Hs]. }
  destruct (String.eqb_spec t "help") as [->|H1].
  { apply follows_leaf; [done|]. rewrite !elem_of_cons; tauto. }
  destruct (String.eqb_spec t "clean") as [->|H2].
  { apply follows_leaf; [done|]. rewrite !elem_of_cons; tauto. }
  destruct (String.eqb_spec t "genapi") as [->|H3].
  { apply follows_leaf; [done|]. rewrite !elem_of_cons; tauto. }
  cbn [orb].
  destruct (String.eqb_spec t "Makefile") as [->|H5].
  { rewrite update_Makefile by done. unfold follows; simpl. by rewrite app_nil_r. }
  destruct (String.eqb_spec t "htmlfast") as [->|H4].
  { rewrite (update_step exec fresh builtin tbl (S f) _ st _ _ Hs (resolve_htmlfast builtin)).
    cbn [update_all].
    pose proof (follows_leaf f "genapi" st Hall) as Hg.
    unfold follows in Hg |- *.
    destruct (leaf tbl (seen st) "genapi") as [g s1] eqn:Hl. cbn [fst snd] in Hg |- *.
    rewrite run_cmds_app.
    destruct (run_cmds exec g (world st)) as [[w1 t1] [e1|]].
    - destruct Hg as [s Hg]; [rewrite !elem_of_cons; tauto|]. rewrite Hg. eauto.
    - rewrite Hg by (rewrite !elem_of_cons; tauto).
      change (phony docs_makefile "htmlfast") with true. cbn [orb].
      rewrite run_recipe_cmds. cbn [world trace seen].
      destruct (run_cmds exec _ w1) as [[w2 t2] [e2|]];
        rewrite <- app_assoc; [eauto|reflexivity]. }
  assert (Hin : in_scope builtin t).
  { destruct Hc as [Hc|Hc]; [|done].
    unfold named in Hc. rewrite !elem_of_cons, elem_of_nil in Hc. tauto. }
  destruct (resolve_other builtin t Hin H1 H2 H3 H4 H5) as [Hr Hp].
  rewrite (update_step exec fresh builtin tbl (S f) _ st _ _ Hs Hr).
  cbn [update_all].
  destruct (follows_Makefile f st Hall) as (_ & -> & _).
  set (s0 := match seen st !! "Makefile" with
             | Some _ => seen st
             | None => <["Makefile" := true]> (seen st)
             end).
  set (st0 := State (world st) (trace st) s0).
  assert (Hall0 : all_remade (seen st0)).
  { simpl. unfold s0. destruct (seen st !! "Makefile"); [done|]. by apply all_remade_insert. }
  pose proof (follows_leaf f "genapi" st0 Hall0) as Hg.
  unfold follows in Hg |- *. subst st0. cbn [world trace seen] in Hg.
  destruct (leaf tbl s0 "genapi") as [g s1] eqn:Hl. cbn [fst snd] in Hg |- *.
  rewrite run_cmds_app.
  destruct (run_cmds exec g (world st)) as [[w1 t1] [e1|]].
  - destruct Hg as [s Hg]; [rewrite !elem_of_cons; tauto|]. rewrite Hg. eauto.
  - rewrite Hg by (rewrite !elem_of_cons; tauto).
    cbn [orb]. rewrite orb_true_r. cbn [orb].
    rewrite run_recipe_cmds. cbn [world trace seen].
    destruct (run_cmds exec _ w1) as [[w2 t2] [e2|]];
      rewrite <- app_assoc; [eauto|reflexivity].
Qed.

Lemma goal_plan_remade seen t : all_remade seen → all_remade (goal_plan tbl seen t).2.
Proof.
  intros H. unfold goal_plan. destruct (seen !! t); [done|].
  repeat case_match; simpl; try (by apply all_remade_insert); try (by apply leaf_remade).
  - apply all_remade_insert.
    match goal with Hl : leaf _ _ _ = _ |- _ => apply (f_equal snd) in Hl; simpl in Hl; subst end.
    by apply leaf_remade.
  - apply all_remade_insert.
    match goal with Hl : leaf _ _ _ = _ |- _ => apply (f_equal snd) in Hl; simpl in Hl; subst end.
    by apply leaf_remade.
  - apply all_remade_insert.
    match goal with Hl : leaf _ _ _ = _ |- _ => apply (f_equal snd) in Hl; simpl in Hl; subst end.
    apply leaf_remade. by apply all_remade_insert.
Qed.

(** A list of covered goals: the commands of [goals_plan], in order, up to
    the first failure. *)
Lemma follows_goals f gs : ∀ acc st,
  all_remade (seen st) →
  Forall (covered builtin) gs →
  observed (update_all (upd (S (S f))) gs acc st)
  = match run_cmds exec (goals_plan tbl (seen st) gs) (world st) with
    | (w', tr, None) => (w', trace st ++ tr, Ok (acc || negb (bool_decide (gs = []))))
    | (w', tr, Some e) => (w', trace st ++ tr, Err e)
    end.
Proof.
  induction gs as [|g gs IH]; intros acc st Hall Hgs.
  { simpl. unfold observed; simpl. by rewrite app_nil_r, orb_false_r. }
  apply Forall_cons_1 in Hgs as [Hg Hgs].
  cbn [update_all goals_plan].
  pose proof (follows_goal f g st Hall Hg) as Hf.
  pose proof (goal_plan_remade (seen st) g Hall) as Hall'.
  destruct (goal_plan tbl (seen st) g) as [c s'] eqn:Hp. cbn [fst snd] in Hf, Hall'.
  unfold follows in Hf. rewrite run_cmds_app.
  destruct (run_cmds exec c (world st)) as [[w1 t1] [e1|]].
  - destruct Hf as [s ->]. reflexivity.
  - rewrite Hf. rewrite IH by done. cbn [world trace seen].
    destruct (run_cmds exec _ w1) as [[w2 t2] [e2|]]; rewrite <- app_assoc; [done|].
    rewrite (bool_decide_eq_false_2 (g :: gs = [])) by done.
    by rewrite orb_true_r; simpl; rewrite orb_true_r.
Qed.
End Steps.

Section Goals.
Import Makefile Make Schedule.
Context {W : Type}.
Variable exec : W → string → W * nat.
Variable fresh : W → string → list string → bool.
Variable builtin : string → bool.
Variables cl env : gmap string string.

(** An invocation with covered goals runs the commands of [goals_plan]. *)
Lemma make_goals goals w :
  Forall (covered builtin) (effective cl goals) →
  observed (make exec fresh builtin docs_makefile cl env goals w)
  = match run_cmds exec (goals_plan (read_vars docs_makefile cl env) ∅ (effective cl goals)) w with
    | (w', tr, None) => (w', tr, Ok (negb (bool_decide (effective cl goals = []))))
    | (w', tr, Some e) => (w', tr, Err e)
    end.
Proof.
  intros Hc. unfold make. fold (effective cl goals).
  change (S (length docs_makefile)) with 11.
  assert (Hall : all_remade (seen (State w [] ∅))).
  { intros t b Ht. simpl in Ht. by rewrite lookup_empty in Ht. }
  rewrite (follows_goals exec fresh builtin _ 9 _ false _ Hall Hc). simpl.
  by destruct (run_cmds _ _ _) as [[w' tr] [e|]].
Qed.
End Goals.

Section Frames.
Import Makefile Make Schedule.

(** A recipe line reads the variable table only at the names it refers to. *)
Lemma expand_frame (tbl tbl' : gmap string string) t fs :
  Forall (fun f => match f with Ref n => value tbl n = value tbl' n | _ => True end) fs →
  expand tbl t fs = expand tbl' t fs.
Proof.
  induction 1 as [|f fs Hf _ IH]; [done|].
  unfold expand in *; simpl. rewrite IH. by destruct f; simpl; rewrite ?Hf.
Qed.

Lemma docs_lines_frame (tbl tbl' : gmap string string) :
  (∀ n, n ∈ recipe_vars → value tbl n = value tbl' n) →
  Forall (fun l => ∀ t, expand tbl t (body l) = expand tbl' t (body l)) (recipes docs_makefile).
Proof.
  intros Hv.
  assert (H1 := Hv "SPHINXBUILD"). assert (H2 := Hv "SOURCEDIR").
  assert (H3 := Hv "BUILDDIR"). assert (H4 := Hv "SPHINXOPTS"). assert (H5 := Hv "O").
  unfold recipe_vars in *. rewrite !elem_of_cons in *.
  unfold recipes; simpl. forall_list; intros t; apply expand_frame; simpl;
    forall_list; auto 10.
Qed.

Lemma cmds_frame (tbl tbl' : gmap string string) t r :
  (∀ n, n ∈ recipe_vars → value tbl n = value tbl' n) →
  Forall (fun l => l ∈ recipes docs_makefile) r →
  cmds tbl t r = cmds tbl' t r.
Proof.
  intros Hv Hr. unfold cmds. apply map_ext_Forall.
  eapply Forall_impl; [exact Hr|]. intros l Hl. simpl.
  pose proof (docs_lines_frame tbl tbl' Hv) as Hd.
  rewrite Forall_forall in Hd. by rewrite (Hd l Hl t).
Qed.

Lemma recipe_of_lines t : Forall (fun l => l ∈ recipes docs_makefile) (recipe_of docs_makefile t).
Proof.
  unfold recipe_of. destruct (explicit_rule docs_makefile t) as [[ps r]|] eqn:He; [|done].
  by eapply explicit_rule_recipes.
Qed.

Lemma catch_all_lines : Forall (fun l => l ∈ recipes docs_makefile) (catch_all docs_makefile).
Proof.
  unfold catch_all. destruct (match_anything docs_makefile) as [[ps r]|] eqn:He; [|done].
  by eapply match_anything_recipes.
Qed.

Lemma goal_plan_frame (tbl tbl' : gmap string string) seen t :
  (∀ n, n ∈ recipe_vars → value tbl n = value tbl' n) →
  goal_plan tbl seen t = goal_plan tbl' seen t.
Proof.
  intros Hv. unfold goal_plan, leaf.
  rewrite !(cmds_frame tbl tbl' _ _ Hv (recipe_of_lines _)).
  by rewrite (cmds_frame tbl tbl' _ _ Hv catch_all_lines).
Qed.

Lemma goals_plan_frame (tbl tbl' : gmap string string) gs : ∀ seen,
  (∀ n, n ∈ recipe_vars → value tbl n = value tbl' n) →
  goals_plan tbl seen gs = goals_plan tbl' seen gs.
Proof.
  induction gs as [|g gs IH]; intros seen Hv; simpl; [done|].
  rewrite (goal_plan_frame tbl tbl' seen g Hv).
  destruct (goal_plan tbl' seen g) as [c s']. by rewrite IH.
Qed.

Lemma docs_env_frame (cl env env' : gmap string string) :
  (∀ n, n ∈ ["SPHINXOPTS"; "SPHINXBUILD"; "O"] → env !! n = env' !! n) →
  ∀ n, n ∈ recipe_vars →
       value (read_vars docs_makefile cl env) n = value (read_vars docs_makefile cl env') n.
Proof.
  intros He n Hn. unfold recipe_vars in Hn. rewrite !elem_of_cons, elem_of_nil in Hn.
  assert (Hu : ∀ k, k ∈ ["SPHINXOPTS"; "SPHINXBUILD"; "O"] → (cl ∪ env) !! k = (cl ∪ env') !! k).
  { intros k Hk. rewrite !lookup_union, (He k Hk). done. }
  destruct Hn as [->|[->|[->|[->|[->|[]]]]]].
  - rewrite !docs_SPHINXBUILD, Hu; [done|rewrite !elem_of_cons; tauto].
  - by rewrite !docs_SOURCEDIR.
  - by rewrite !docs_BUILDDIR.
  - rewrite !docs_SPHINXOPTS, Hu; [done|rewrite !elem_of_cons; tauto].
  - rewrite !docs_O, Hu; [done|rewrite !elem_of_cons; tauto].
Qed.
End Frames.

Section Plans.
Import Makefile Make Schedule.
Variable tbl : gmap string string.

Lemma catch_all_cmd t : (cmds tbl t (catch_all docs_makefile)).*2 = [sphinx_build tbl t].
Proof.
  unfold cmds, catch_all, sphinx_build; simpl.
  by repeat (rewrite ?append_empty_r, ?append_assoc; simpl).
Qed.

Lemma genapi_cmds : (cmds tbl "genapi" (recipe_of docs_makefile "genapi")).*2 = apidoc.
Proof.
  unfold cmds, apidoc; simpl.
  by repeat (rewrite ?append_empty_r, ?append_assoc; simpl).
Qed.

Lemma clean_cmds :
  (cmds tbl "clean" (recipe_of docs_makefile "clean")).*2
  = removals tbl ++ [sphinx_build tbl "clean"].
Proof.
  unfold cmds, removals, sphinx_build; simpl.
  by repeat (rewrite ?append_empty_r, ?append_assoc; simpl).
Qed.

Lemma goal_plan_skip seen g : is_Some (seen !! g) → goal_plan tbl seen g = ([], seen).
Proof. intros [b Hb]. unfold goal_plan. by rewrite Hb. Qed.

Lemma leaf_mono seen t k : is_Some (seen !! k) → is_Some ((leaf tbl seen t).2 !! k).
Proof.
  intros Hk. unfold leaf. destruct (seen !! t); [done|]. simpl.
  rewrite lookup_insert. by case_decide.
Qed.

Lemma insert_mono (seen : gmap string bool) t k :
  is_Some (seen !! k) → is_Some (<[t := true]> seen !! k).
Proof. intros Hk. rewrite lookup_insert. by case_decide. Qed.

Lemma goal_plan_mono seen t k :
  is_Some (seen !! k) → is_Some ((goal_plan tbl seen t).2 !! k).
Proof.
  intros Hk. unfold goal_plan. destruct (seen !! t) eqn:Ht; [done|].
  destruct (String.eqb t "help" || String.eqb t "clean" || String.eqb t "genapi");
    [by apply leaf_mono|].
  destruct (String.eqb t "Makefile"); [by apply insert_mono|].
  destruct (String.eqb t "htmlfast").
  - pose proof (leaf_mono seen "genapi" k Hk) as Hl.
    destruct (leaf tbl seen "genapi") as [g s1]. by apply insert_mono.
  - set (s0 := match seen !! "Makefile" with Some _ => seen | None => _ end).
    assert (Hk0 : is_Some (s0 !! k)).
    { unfold s0. destruct (seen !! "Makefile"); [done|]. by apply insert_mono. }
    pose proof (leaf_mono s0 "genapi" k Hk0) as Hl.
    destruct (leaf tbl s0 "genapi") as [g s1]. by apply insert_mono.
Qed.

Lemma goal_plan_seen seen t : is_Some ((goal_plan tbl seen t).2 !! t).
Proof.
  unfold goal_plan. destruct (seen !! t) eqn:Ht; [simpl; by rewrite Ht|].
  assert (Hi : ∀ s : gmap string bool, is_Some (<[t := true]> s !! t)).
  { intros s. by rewrite lookup_insert_eq. }
  destruct (String.eqb t "help" || String.eqb t "clean" || String.eqb t "genapi").
  { unfold leaf. rewrite Ht. apply Hi. }
  destruct (String.eqb t "Makefile"); [apply Hi|].
  destruct (String.eqb t "htmlfast").
  - destruct (leaf tbl seen "genapi") as [g s1]. apply Hi.
  - destruct (leaf tbl _ "genapi") as [g s1]. apply Hi.
Qed.

Lemma seen_after_mono gs : ∀ seen k,
  is_Some (seen !! k) → is_Some (seen_after tbl seen gs !! k).
Proof.
  induction gs as [|g gs IH]; intros seen k Hk; simpl; [done|].
  by apply IH, goal_plan_mono.
Qed.

Lemma seen_after_elem gs : ∀ seen g, g ∈ gs → is_Some (seen_after tbl seen gs !! g).
Proof.
  induction gs as [|g0 gs IH]; intros seen g Hg; simpl.
  { by apply elem_of_nil in Hg. }
  apply elem_of_cons in Hg as [->|Hg]; [|by apply IH].
  apply seen_after_mono, goal_plan_seen.
Qed.

Lemma goals_plan_app a : ∀ seen b,
  goals_plan tbl seen (a ++ b) = goals_plan tbl seen a ++ goals_plan tbl (seen_after tbl seen a) b.
Proof.
  induction a as [|g a IH]; intros seen b; simpl; [done|].
  destruct (goal_plan tbl seen g) as [c s']; simpl. by rewrite IH, app_assoc.
Qed.

(** A goal asked for again adds nothing. *)
Lemma goals_plan_again a g b seen :
  g ∈ a → goals_plan tbl seen (a ++ g :: b) = goals_plan tbl seen (a ++ b).
Proof.
  intros Hg. rewrite !goals_plan_app. f_equal. simpl.
  by rewrite (goal_plan_skip _ g (seen_after_elem a seen g Hg)).
Qed.

(** Builder goals once [Makefile] and [genapi] have been considered: one
    sphinx-build line each. *)
Lemma builders_plan gs : ∀ seen,
  is_Some (seen !! "Makefile") → is_Some (seen !! "genapi") →
  NoDup gs → Forall (fun g => (g ∉ named) ∧ seen !! g = None) gs →
  (goals_plan tbl seen gs).*2 = (sphinx_build tbl <$> gs).
Proof.
  induction gs as [|g gs IH]; intros seen Hm Hg Hnd Hgs; [done|].
  apply NoDup_cons in Hnd as [Hng Hnd]. apply Forall_cons_1 in Hgs as [[Hn Hs] Hgs].
  unfold named in Hn. rewrite !not_elem_of_cons in Hn. destruct Hn as (N1&N2&N3&N4&N5&_).
  assert (Hp : goal_plan tbl seen g
               = (cmds tbl g (catch_all docs_makefile), <[g := true]> seen)).
  { unfold goal_plan, leaf. rewrite Hs.
    rewrite !(proj2 (String.eqb_neq _ _)) by done. cbn [orb].
    destruct Hm as [bm Hm]. destruct Hg as [bg Hg]. by rewrite Hm, Hg. }
  cbn [goals_plan]. rewrite Hp, fmap_app, catch_all_cmd, fmap_cons. cbn [app]. f_equal.
  apply IH; [by apply insert_mono|by apply insert_mono|done|].
  rewrite Forall_forall in Hgs |- *. intros g' Hg'. destruct (Hgs g' Hg') as [? ?].
  split; [done|]. rewrite lookup_insert_ne; [done|]. intros ->. done.
Qed.

(** Builder goals at the start of an invocation: the [genapi] commands
    once, then one sphinx-build line for each goal, in the order given. *)
Lemma builders_plan_first g gs :
  NoDup (g :: gs) → Forall (fun g => g ∉ named) (g :: gs) →
  (goals_plan tbl ∅ (g :: gs)).*2 = apidoc ++ (sphinx_build tbl <$> g :: gs).
Proof.
  intros Hnd Hgs.
  apply NoDup_cons in Hnd as [Hng Hnd]. apply Forall_cons_1 in Hgs as [Hn Hgs].
  assert (Hn' := Hn).
  unfold named in Hn. rewrite !not_elem_of_cons in Hn. destruct Hn as (N1&N2&N3&N4&N5&_).
  assert (Hp : goal_plan tbl ∅ g
               = (cmds tbl "genapi" (recipe_of docs_makefile "genapi")
                  ++ cmds tbl g (catch_all docs_makefile),
                  <[g := true]> (<["genapi" := true]> (<["Makefile" := true]> ∅)))).
  { unfold goal_plan, leaf. rewrite lookup_empty.
    rewrite !(proj2 (String.eqb_neq _ _)) by done. cbn [orb].
    by rewrite lookup_empty, lookup_insert_ne, lookup_empty by done. }
  cbn [goals_plan]. rewrite Hp, !fmap_app, catch_all_cmd, genapi_cmds, fmap_cons.
  rewrite <- !app_assoc. cbn [app]. do 2 f_equal.
  apply builders_plan; [| |done|].
  - rewrite lookup_insert_ne, lookup_insert_ne, lookup_insert_eq by done. eauto.
  - rewrite lookup_insert_ne, lookup_insert_eq by done. eauto.
  - rewrite Forall_forall in Hgs |- *. intros g' Hg'. pose proof (Hgs g' Hg') as Hk.
    split; [done|]. unfold named in Hk. rewrite !not_elem_of_cons in Hk.
    rewrite !lookup_insert_ne, lookup_empty; [done|intros <-; tauto..|].
    intros ->. done.
Qed.

Lemma goal_plan_clean seen :
  seen !! "clean" = None →
  goal_plan tbl seen "clean"
  = (cmds tbl "clean" (recipe_of docs_makefile "clean"), <["clean" := true]> seen).
Proof. intros H. unfold goal_plan, leaf. by rewrite H. Qed.

Lemma goal_plan_builder seen t :
  t ∉ named → seen !! t = None → seen !! "Makefile" = None → seen !! "genapi" = None →
  goal_plan tbl seen t
  = (cmds tbl "genapi" (recipe_of docs_makefile "genapi") ++ cmds tbl t (catch_all docs_makefile),
     <[t := true]> (<["genapi" := true]> (<["Makefile" := true]> seen))).
Proof.
  intros Hn Ht Hm Hg.
  unfold named in Hn. rewrite !not_elem_of_cons in Hn. destruct Hn as (N1&N2&N3&N4&N5&_).
  unfold goal_plan, leaf. rewrite Ht.
  rewrite !(proj2 (String.eqb_neq _ _)) by done. cbn [orb].
  by rewrite Hm, lookup_insert_ne, Hg by done.
Qed.
End Plans.

Section Failing.
Import Makefile Make Txt.
Context {W : Type}.
Variable exec : W → string → W * nat.

(** Where a run of commands failed. *)
Lemma run_cmds_failed_at cs w tgt c code :
  (run_cmds exec cs w).2 = Some (Failed tgt c code) →
  ∃ pre post, cs = pre ++ (tgt, c) :: post ∧ (run_cmds exec cs w).1.2 = pre.*2 ++ [c].
Proof.
  revert w; induction cs as [|[t0 c0] cs IH]; intros w; simpl; [done|].
  destruct (exec w c0) as [w' [|rc]].
  - specialize (IH w'). destruct (run_cmds exec cs w') as [[w'' tr] e]; simpl in *.
    intros He. destruct (IH He) as (pre & post & -> & ->).
    by exists ((t0, c0) :: pre), post.
  - simpl. intros [= <- <- <-]. by exists [], cs.
Qed.

(** The failing command of a plan that starts with the commands [A] of
    one target and goes on with commands of other targets. *)
Lemma failed_in_front (A : list string) (l : string) rest pre post c :
  (pair l <$> A) ++ rest = pre ++ (l, c) :: post →
  Forall (fun x => x.1 ≠ l) rest →
  ∃ k, A = pre.*2 ++ c :: k.
Proof.
  intros Heq Hrest.
  assert (Hno : (l, c) ∉ rest).
  { intros Hin. rewrite Forall_forall in Hrest. by apply (Hrest _ Hin). }
  assert (HA : (pair l <$> A).*2 = A).
  { rewrite <- list_fmap_compose. apply list_fmap_id. }
  apply app_eq_inv in Heq as [(k & Hk1 & Hk2)|(k & Hk1 & Hk2)].
  - destruct k as [|x k]; simpl in Hk2.
    + exfalso. apply Hno. rewrite <- Hk2. apply list_elem_of_here.
    + injection Hk2 as <- _. exists k.*2.
      by rewrite <- HA, Hk1, fmap_app.
  - exfalso. apply Hno. rewrite Hk2, elem_of_app. right. apply list_elem_of_here.
Qed.

Lemma docs_plan_front tbl t :
  t ≠ EmptyString →
  ∃ A rest, docs_plan tbl t = (pair "genapi" <$> A) ++ rest
            ∧ Forall (fun x => x.1 ≠ "genapi") rest
            ∧ (A = [] ∨ A = apidoc).
Proof.
  intros _. rewrite docs_plan_eq.
  destruct (String.eqb_spec t "help") as [->|H1];
    [by exists [], [("help", sphinx_build tbl "help")]; repeat split; auto; repeat constructor|].
  destruct (String.eqb_spec t "clean") as [->|H2].
  { exists [], (pair "clean" <$> removals tbl ++ [sphinx_build tbl "clean"]).
    repeat split; auto. apply Forall_fmap, Forall_true. done. }
  destruct (String.eqb_spec t "genapi") as [->|H3].
  { exists apidoc, []. rewrite app_nil_r. repeat split; auto. }
  destruct (String.eqb_spec t "htmlfast") as [->|H4].
  { eexists apidoc, [_]. repeat split; auto; by repeat constructor. }
  destruct (String.eqb_spec t "Makefile") as [->|H5].
  { exists [], []. repeat split; auto. }
  eexists apidoc, [_]. repeat split; auto; by repeat constructor.
Qed.

Lemma fast_not_apidoc tbl : sphinx_build tbl "html" +:+ " -D nbsphinx_execute=never" ∉ apidoc.
Proof.
  intros Hin.
  assert (has_dq (sphinx_build tbl "html" +:+ " -D nbsphinx_execute=never") = false) as Hf.
  { unfold apidoc in Hin. rewrite !elem_of_cons, elem_of_nil in Hin.
    destruct Hin as [-> | [-> | [-> | []]]]; reflexivity. }
  by rewrite has_dq_app, sphinx_build_has_dq in Hf.
Qed.
End Failing.

Section GoalsTrace.
Import Makefile Make Schedule.
Context {W : Type}.
Variable exec : W → string → W * nat.
Variable fresh : W → string → list string → bool.
Variable builtin : string → bool.
Variables cl env : gmap string string.

Lemma make_goals_trace goals w :
  Forall (covered builtin) (effective cl goals) →
  let run := make exec fresh builtin docs_makefile cl env goals w in
  let plan := (goals_plan (read_vars docs_makefile cl env) ∅ (effective cl goals)).*2 in
  trace run.1 `prefix_of` plan
  ∧ (is_Ok run.2 → trace run.1 = plan)
  ∧ ((∀ w c, (exec w c).2 = 0) → is_Ok run.2).
Proof.
  intros Hc run plan. subst run plan.
  pose proof (make_goals exec fresh builtin cl env goals w Hc) as H.
  unfold observed in H.
  pose proof (run_cmds_prefix exec (goals_plan (read_vars docs_makefile cl env) ∅
                                      (effective cl goals)) w) as Hp.
  pose proof (run_cmds_none exec (goals_plan (read_vars docs_makefile cl env) ∅
                                    (effective cl goals)) w) as Hn.
  pose proof (run_cmds_all_ok exec (goals_plan (read_vars docs_makefile cl env) ∅
                                      (effective cl goals)) w) as Ha.
  destruct (run_cmds exec _ w) as [[w' tr] [e|]]; simpl in *; injection H as _ -> ->.
  - split; [done|]. split; [by intros [b ?]|]. intros Hok. by specialize (Ha Hok).
  - split; [done|]. split; [auto|]. intros _. by eexists.
Qed.
End GoalsTrace.

(** ** make: properties of whole invocations *)

Section Invocations.
Import Makefile Make Schedule.


(** X2.  Files on disk never make make skip work: whatever files exist and
    however fresh they are, the same commands run, for any goals. *)
Theorem files_on_disk_do_not_matter {W : Type} (exec : W → string → W * nat)
    (fresh fresh' : W → string → list string → bool) (builtin : string → bool)
    (cl env : gmap string string) (goals : list string) (w : W) :
  Forall (covered builtin) (effective cl goals) →
  observed (make exec fresh builtin docs_makefile cl env goals w)
  = observed (make exec fresh' builtin docs_makefile cl env goals w).
Proof. intros Hc. by rewrite !make_goals. Qed.

Lemma builders_covered builtin gs :
  Forall (fun t => in_scope builtin t ∧ t ∉ named) gs → Forall (covered builtin) gs.
Proof. intros H. eapply Forall_impl; [exact H|]. intros t [Hin _]. by right. Qed.




(** X6.  When the API extraction fails the documentation is not built: if
    make stops on a command of [genapi], that command is the last one run,
    only [genapi] commands have run, and no sphinx-build line has. *)
Theorem failed_genapi_stops_the_build {W : Type} (exec : W → string → W * nat)
    (fresh : W → string → list string → bool) (builtin : string → bool)
    (cl env : gmap string string) (t : string) (w : W) (c : string) (code : nat) :
  in_scope builtin t →
  (make exec fresh builtin docs_makefile cl env [t] w).2 = Err (Failed "genapi" c code) →
  let tbl := read_vars docs_makefile cl env in
  let run := make exec fresh builtin docs_makefile cl env [t] w in
  c ∈ apidoc
  ∧ last (trace run.1) = Some c
  ∧ trace run.1 `prefix_of` apidoc
  ∧ (∀ b, sphinx_build tbl b ∉ trace run.1)
  ∧ sphinx_build tbl "html" +:+ " -D nbsphinx_execute=never" ∉ trace run.1.
Proof.
  intros Hin Hr tbl run. subst tbl run.
  destruct (make_docs_parts exec fresh builtin cl env w t (fun _ => Hin)) as (_ & Ht & Hres).
  rewrite Hres in Hr.
  destruct (run_cmds exec _ w).2 as [x|] eqn:Hx; [|done]. injection Hr as ->.
  destruct (run_cmds_failed_at exec _ w _ _ _ Hx) as (pre & post & Hcs & Htr).
  rewrite Ht, Htr. clear Ht Htr Hx Hres.
  set (tbl := read_vars docs_makefile cl env) in *.
  assert (Hpre : c ∈ apidoc ∧ (pre.*2 ++ [c]) `prefix_of` apidoc).
  { destruct (docs_plan_front tbl t (proj1 Hin)) as (A & rest & HA & Hrest & Hcase).
    rewrite HA in Hcs.
    destruct (failed_in_front A "genapi" rest pre post c Hcs Hrest) as [k Hk].
    destruct Hcase as [->| ->]; [by destruct pre|].
    rewrite Hk. split.
    - rewrite elem_of_app, elem_of_cons. auto.
    - exists k. by rewrite <- app_assoc. }
  destruct Hpre as [Hc Hp]. split; [exact Hc|]. split; [by rewrite last_snoc|].
  split; [exact Hp|]. destruct Hp as [k Hk].
  split; [intros b Hb|intros Hb].
  - apply (sphinx_build_not_apidoc tbl b). rewrite Hk, elem_of_app. by left.
  - apply (fast_not_apidoc tbl). rewrite Hk, elem_of_app. by left.
Qed.

End Invocations.

Section Instances.
Import Makefile Make Schedule.

Lemma latex_in_scope : in_scope c_rules "latex".
Proof. unfold in_scope. split; [discriminate | split; reflexivity]. Defined.

Lemma html_latex_builders :
  Forall (fun t => in_scope c_rules t ∧ t ∉ named) ["html"; "latex"].
Proof.
  apply Forall_cons_2; [|apply Forall_cons_2; [|apply Forall_nil_2]].
  - split; [exact html_in_scope|].
    unfold named. rewrite !not_elem_of_cons. repeat split; [discriminate..|apply not_elem_of_nil].
  - split; [exact latex_in_scope|].
    unfold named. rewrite !not_elem_of_cons. repeat split; [discriminate..|apply not_elem_of_nil].
Defined.

Lemma html_not_named : "html" ∉ named.
Proof.
  unfold named. rewrite !not_elem_of_cons. repeat split; [discriminate..|apply not_elem_of_nil].
Defined.



Lemma make_html_with_everything_fresh :
  Forall (covered c_rules) (effective ∅ ["html"])
  ∧ observed (make calm bare c_rules docs_makefile ∅ ∅ ["html"] tt)
    = observed (make calm (fun _ _ _ => true) c_rules docs_makefile ∅ ∅ ["html"] tt).
Proof.
  assert (Hc : Forall (covered c_rules) (effective ∅ ["html"])).
  { apply Forall_cons_2; [right; exact html_in_scope|apply Forall_nil_2]. }
  split; [exact Hc|].
  apply (files_on_disk_do_not_matter calm bare (fun _ _ _ => true) c_rules ∅ ∅ ["html"] tt Hc).
Defined.

Lemma make_html_without_mkdir :
  (make no_mkdir bare c_rules docs_makefile ∅ ∅ ["html"] tt).2
  = Err (Failed "genapi" "mkdir -p api/generated/" 1)
  ∧ last (trace (make no_mkdir bare c_rules docs_makefile ∅ ∅ ["html"] tt).1)
    = Some "mkdir -p api/generated/".
Proof.
  assert (Hr : (make no_mkdir bare c_rules docs_makefile ∅ ∅ ["html"] tt).2
               = Err (Failed "genapi" "mkdir -p api/generated/" 1)).
  { vm_compute. reflexivity. }
  split; [exact Hr|].
  destruct (failed_genapi_stops_the_build no_mkdir bare c_rules ∅ ∅ "html" tt
              "mkdir -p api/generated/" 1 html_in_scope Hr) as (_ & Hl & _).
  exact Hl.
Defined.


End Instances.
